(** * sqla_helpers: transactional scope and conflict-retry decorator

    A shallow embedding of [sqla_helpers.py]:

    - [session_scope], the context manager that brackets a block of work
      with [begin] / [commit] / [rollback] / [close];
    - [resolve_transaction_conflicts], the decorator factory whose
      [wrapped] closure replays a method when the database reports a
      retryable conflict.

    The session, the wrapped function, the sleeping clock and the logger
    are collaborators of the code.  Every call the code makes on them is
    recorded, in program order, in a trace of events; what a collaborator
    answers (a normal return or a raised exception) is an input of the
    model. *)

From Stdlib Require Import List String Arith Bool Lia QArith.
Import ListNotations.
Local Open Scope nat_scope.

Set Implicit Arguments.

(** ** Exceptions *)

(** Where an exception object raised by a collaborator sits with respect
    to the two handlers of the retry loop, [except OperationalError] and
    [except Exception]. *)
Inductive ExcClass : Type :=
| OperationalError   (* isinstance(e, OperationalError) *)
| Exception          (* isinstance(e, Exception), not an OperationalError *)
| BaseException.     (* not an Exception: KeyboardInterrupt, SystemExit, ... *)

(** An exception object raised by a collaborator: its class and its
    identity. *)
Record PyExc : Type := mkExc { exc_class : ExcClass; exc_id : nat }.

(** The two arguments of
    ["Could not replay the transaction {} after {} attempts".format(func, retries)]. *)
Record Message : Type := mkMessage { msg_func : string; msg_attempts : nat }.

(** What leaves a call by [raise]. *)
Inductive Raised : Type :=
| Original (e : PyExc)                       (* a collaborator's exception, the same object *)
| RuntimeError (msg : string)                (* raise RuntimeError(msg) *)
| UnresolvedDatabaseConflict (msg : Message) (cause : PyExc).
                                             (* raise UnresolvedDatabaseConflict(msg) from cause *)

Inductive Outcome (A : Type) : Type :=
| Return (a : A)
| Raise (r : Raised).
Arguments Return {A} a.
Arguments Raise {A} r.

(** ** The session and the trace *)

Inductive SessionOp : Type := begin | commit | rollback | close.

Definition SessionOp_eqb (a b : SessionOp) : bool :=
  match a, b with
  | begin, begin | commit, commit | rollback, rollback | close, close => true
  | _, _ => false
  end.

(** A session handle.  [respond op i] is what the [i]-th call
    (counting from 0) of method [op] on this session does: [None] when
    it returns, [Some e] when it raises [e]. *)
Record Session : Type := mkSession {
  sid : nat;
  respond : SessionOp -> nat -> option PyExc
}.

Inductive Event : Type :=
| SessionCall (s : nat) (op : SessionOp)   (* session.op() on the session with that [sid] *)
| FuncCall                                 (* func(self, *args, **kwargs) *)
| Yield                                    (* the body of the [with] block runs *)
| Sleep (seconds : Q)                      (* time.sleep(seconds) *)
| LogDebug (attempts : nat).               (* logger.debug('[%i] Retrying ...', attempts) *)

Definition Trace := list Event.

Definition is_call (s : nat) (op : SessionOp) (ev : Event) : bool :=
  match ev with
  | SessionCall s' op' => Nat.eqb s s' && SessionOp_eqb op op'
  | _ => false
  end.

Definition is_func_call (ev : Event) : bool :=
  match ev with FuncCall => true | _ => false end.

(** Number of calls of [op] issued so far on session [s]. *)
Definition ncalls (s : nat) (op : SessionOp) (tr : Trace) : nat :=
  List.length (filter (is_call s op) tr).

(** Number of invocations of the wrapped function so far. *)
Definition invocations (tr : Trace) : nat :=
  List.length (filter is_func_call tr).

(** The session methods called, in order, whatever the session. *)
Fixpoint session_calls (tr : Trace) : list SessionOp :=
  match tr with
  | [] => []
  | SessionCall _ op :: tr' => op :: session_calls tr'
  | _ :: tr' => session_calls tr'
  end.

(** The arguments of the [time.sleep] calls, in order. *)
Fixpoint sleeps (tr : Trace) : list Q :=
  match tr with
  | [] => []
  | Sleep d :: tr' => d :: sleeps tr'
  | _ :: tr' => sleeps tr'
  end.

(** ** Computations: a trace of calls and an outcome *)

Definition M (A : Type) : Type := Trace -> Trace * Outcome A.

Definition ret {A} (a : A) : M A := fun tr => (tr, Return a).

Definition raise {A} (r : Raised) : M A := fun tr => (tr, Raise r).

Definition bind {A B} (m : M A) (k : A -> M B) : M B :=
  fun tr =>
    match m tr with
    | (tr', Return a) => k a tr'
    | (tr', Raise r) => (tr', Raise r)
    end.

Notation "x <- m ;; k" := (bind m (fun x => k))
  (at level 61, m at next level, right associativity).
Notation "m ;; k" := (bind m (fun _ => k))
  (at level 61, right associativity).

(** [try: m  except <any>: h], the handler receiving what was raised. *)
Definition try_except {A} (m : M A) (h : Raised -> M A) : M A :=
  fun tr =>
    match m tr with
    | (tr', Return a) => (tr', Return a)
    | (tr', Raise r) => h r tr'
    end.

(** [try: m  finally: fin].  An exception raised by [fin] replaces the
    outcome of [m]. *)
Definition try_finally {A} (m : M A) (fin : M unit) : M A :=
  fun tr =>
    match m tr with
    | (tr', out) =>
        match fin tr' with
        | (tr'', Return _) => (tr'', out)
        | (tr'', Raise r) => (tr'', Raise r)
        end
    end.

Definition emit (ev : Event) : M unit := fun tr => (tr ++ [ev], Return tt).

(** [session.op()]: the call is recorded, then it returns or raises as
    the session decides. *)
Definition call (session : Session) (op : SessionOp) : M unit :=
  fun tr =>
    match respond session op (ncalls (sid session) op tr) with
    | None => (tr ++ [SessionCall (sid session) op], Return tt)
    | Some e => (tr ++ [SessionCall (sid session) op], Raise (Original e))
    end.

(** A collaborator's result, lifted. *)
Definition lift {A} (r : PyExc + A) : M A :=
  match r with
  | inl e => raise (Original e)
  | inr a => ret a
  end.

(** ** session_scope *)

Section SessionScope.

Variable V : Type.

(** [with session_scope(session) as s: work(s)].  [work] is the body of
    the [with] block, run at the [yield]; it returns a value or raises. *)
Definition session_scope (session : Session) (work : Session -> PyExc + V) : M V :=
  call session begin ;;
  try_finally
    (try_except
       (v <- (emit Yield ;; lift (work session)) ;;
        call session commit ;;
        ret v)
       (fun r =>
          call session rollback ;;
          raise r))
    (call session close).

Definition run_session_scope (session : Session) (work : Session -> PyExc + V)
  : Trace * Outcome V :=
  session_scope session work [].

End SessionScope.

(** ** resolve_transaction_conflicts *)

(** A manager's mapper: it has a [session] attribute. *)
Record Mapper : Type := mkMapper { session : Session }.

(** The receiver [self] of the decorated method, as the decorator probes
    it: [_session self] is [Some s] when [hasattr(self, '_session')] and
    [self._session] is [s]; likewise [_mapper]. *)
Record Receiver : Type := mkReceiver {
  _session : option Session;
  _mapper : option Mapper
}.

(** The decorated function: how it prints in a message, and what its
    [i]-th invocation (counting from 0) with the call's
    [self, *args, **kwargs] does: [inr v] when it returns [v], [inl e]
    when it raises [e]. *)
Record Func (V : Type) : Type := mkFunc {
  func_repr : string;
  func_run : nat -> PyExc + V
}.

(** The argument of [time.sleep(0.1)], in seconds. *)
Definition retry_delay : Q := (1 # 10)%Q.

Section RetryingTransaction.

Variable V : Type.

(** [is_retryable_exception] is defined outside this file; the
    decorator only calls it on an [OperationalError]. *)
Variable is_retryable_exception : PyExc -> bool.

(** The decorator's arguments.  [retries] is the retry budget, a
    non-negative integer; its default, [SQL_MAX_CONFLICT_RETRIES], is a
    constant defined elsewhere.  [logger] is the truth value of the
    [logger] argument ([None], the default, is false). *)
Variable retries : nat.
Variable logger : bool.

Variable func : Func V.

(** Lines 50-57: which session the wrapper works on. *)
Definition resolve_session (self : Receiver) : Raised + Session :=
  match _session self with
  | Some s => inr s                                 (* use in mapper *)
  | None =>
      match _mapper self with
      | Some m => inr (session m)                   (* use in manager *)
      | None => inl (RuntimeError "Invalid decorator usage")
      end
  end.

(** [func(self, *args, **kwargs)]: the call is recorded and the
    function's answer handed back. *)
Definition invoke : M (PyExc + V) :=
  fun tr => (tr ++ [FuncCall], Return (func_run func (invocations tr))).

(** How one turn of the [while] loop ends when it does not raise. *)
Inductive Turn : Type :=
| Returned (v : V)              (* return func(...) *)
| Continue (attempts : nat).    (* continue, with the counter's new value *)

(** The body of the [while] loop, lines 60-87. *)
Definition loop_body (session : Session) (attempts : nat) : M Turn :=
  r <- invoke ;;
  match r with
  | inr v => ret (Returned v)
  | inl exc =>
      match exc_class exc with
      | OperationalError =>
          if is_retryable_exception exc then
            call session close ;;
            let attempts := attempts + 1 in
            if retries <? attempts then
              raise (UnresolvedDatabaseConflict
                       (mkMessage (func_repr func) retries) exc)
            else
              emit (Sleep retry_delay) ;;
              (if logger then emit (LogDebug attempts) else ret tt) ;;
              call session begin ;;
              ret (Continue attempts)
          else
            call session rollback ;;
            call session begin ;;
            raise (Original exc)
      | Exception =>
          call session rollback ;;
          call session begin ;;
          raise (Original exc)
      | BaseException =>
          raise (Original exc)                      (* no handler matches *)
      end
  end.

(** [while attempts <= retries: ...].  The wrapper's value is [Some v]
    when the function returned [v], and [None] (Python's [None]) when
    the loop is left by its condition.  [fuel] bounds the number of
    turns; [None] at the outer level means the bound was reached. *)
Fixpoint while_loop (fuel : nat) (session : Session) (attempts : nat) (tr : Trace)
  : option (Trace * Outcome (option V)) :=
  match fuel with
  | 0 => None
  | S fuel' =>
      if attempts <=? retries then
        match loop_body session attempts tr with
        | (tr', Return (Returned v)) => Some (tr', Return (Some v))
        | (tr', Return (Continue attempts')) => while_loop fuel' session attempts' tr'
        | (tr', Raise r) => Some (tr', Raise r)
        end
      else Some (tr, Return None)
  end.

(** [wrapped(self, *args, **kwargs)], run from an empty trace.  The
    loop makes at most [retries + 1] turns. *)
Definition wrapped (self : Receiver) : option (Trace * Outcome (option V)) :=
  let attempts := 0 in
  match resolve_session self with
  | inl r => Some ([], Raise r)
  | inr session => while_loop (S retries) session attempts []
  end.

End RetryingTransaction.

Arguments Returned {V} v.
Arguments Continue {V} attempts.

(** ** Vocabulary of the statements *)

(** The first [n] calls of method [op] on session [s] return normally. *)
Definition returns_upto (s : Session) (op : SessionOp) (n : nat) : Prop :=
  forall i, i < n -> respond s op i = None.

(** [e] is caught by [except OperationalError] and classified as
    retryable: a retryable conflict. *)
Definition retryable_conflict (is_retryable_exception : PyExc -> bool) (e : PyExc) : bool :=
  match exc_class e with
  | OperationalError => is_retryable_exception e
  | _ => false
  end.

(** [e] is caught by one of the two handlers and is not a retryable
    conflict: a non-retryable [OperationalError], or another
    [Exception]. *)
Definition caught_not_retryable (is_retryable_exception : PyExc -> bool) (e : PyExc) : bool :=
  match exc_class e with
  | OperationalError => negb (is_retryable_exception e)
  | Exception => true
  | BaseException => false
  end.

(** An invocation's answer is a retryable conflict. *)
Definition raises_conflict (V : Type) (is_retryable_exception : PyExc -> bool)
  (r : PyExc + V) : bool :=
  match r with
  | inl e => retryable_conflict is_retryable_exception e
  | inr _ => false
  end.

(** The events of one replay, the counter having reached [attempts]:
    the invocation that raised the conflict, [close], the sleep, the
    debug line when there is a logger, [begin]. *)
Definition retry_round (s : nat) (logger : bool) (attempts : nat) : Trace :=
  [FuncCall; SessionCall s close; Sleep retry_delay]
    ++ (if logger then [LogDebug attempts] else [])
    ++ [SessionCall s begin].

(** The events of [k] replays in a row, the counter starting at [first]. *)
Fixpoint retry_rounds (s : nat) (logger : bool) (first k : nat) : Trace :=
  match k with
  | 0 => []
  | S k' => retry_round s logger (first + 1) ++ retry_rounds s logger (first + 1) k'
  end.

(** The number that the message of an [UnresolvedDatabaseConflict]
    gives as its "attempts". *)
Definition reported_attempts (A : Type) (out : Outcome A) : option nat :=
  match out with
  | Raise (UnresolvedDatabaseConflict m _) => Some (msg_attempts m)
  | _ => None
  end.

Definition is_begin (ev : Event) : bool :=
  match ev with SessionCall _ begin => true | _ => false end.

Definition is_session_call (ev : Event) : bool :=
  match ev with SessionCall _ _ => true | _ => false end.

(** Every session call recorded in [tr] was made on the session [s]. *)
Definition on_session (s : nat) (tr : Trace) : Prop :=
  forall s' op, In (SessionCall s' op) tr -> s' = s.

(** How the turn that ends the loop looks, when it is the invocation
    number [k] (from 0) and the session's calls return: the events of
    that turn and the wrapper's outcome. *)
Inductive last_turn (V : Type) (is_retryable_exception : PyExc -> bool)
  (retries : nat) (func : Func V) (s : nat) (k : nat)
  : Trace -> Outcome (option V) -> Prop :=
| turn_returns v :
    func_run func k = inr v ->
    last_turn is_retryable_exception retries func s k
      [FuncCall] (Return (Some v))
| turn_passes e :
    func_run func k = inl e ->
    exc_class e = BaseException ->
    last_turn is_retryable_exception retries func s k
      [FuncCall] (Raise (Original e))
| turn_reraises e :
    func_run func k = inl e ->
    caught_not_retryable is_retryable_exception e = true ->
    last_turn is_retryable_exception retries func s k
      [FuncCall; SessionCall s rollback; SessionCall s begin] (Raise (Original e))
| turn_gives_up e :
    func_run func k = inl e ->
    retryable_conflict is_retryable_exception e = true ->
    k = retries ->
    last_turn is_retryable_exception retries func s k
      [FuncCall; SessionCall s close]
      (Raise (UnresolvedDatabaseConflict (mkMessage (func_repr func) retries) e)).

(** The loop is at its head with the counter at [a], on session [s]:
    the counter equals the number of invocations, of [close] calls and
    of [begin] calls so far, and [rollback] has not been called. *)
Definition at_head (s : nat) (a : nat) (tr : Trace) : Prop :=
  invocations tr = a /\
  ncalls s close tr = a /\
  ncalls s begin tr = a /\
  ncalls s rollback tr = 0.

(** ** Sample collaborators *)

(** A session on which every call returns. *)
Definition quiet_session : Session := mkSession 1 (fun _ _ => None).

(** A session whose [commit] raises an [OperationalError]. *)
Definition commit_fails : Session :=
  mkSession 2
    (fun op _ => match op with
                 | commit => Some (mkExc OperationalError 40)
                 | _ => None
                 end).

(** A session on which every call raises. *)
Definition broken_session : Session :=
  mkSession 4 (fun _ _ => Some (mkExc OperationalError 50)).

(** A session whose [rollback] raises an [OperationalError]. *)
Definition rollback_fails : Session :=
  mkSession 3
    (fun op _ => match op with
                 | rollback => Some (mkExc OperationalError 41)
                 | _ => None
                 end).

Definition mapper_self : Receiver := mkReceiver (Some quiet_session) None.
Definition manager_self : Receiver := mkReceiver None (Some (mkMapper quiet_session)).
Definition bare_self : Receiver := mkReceiver None None.

(** A classifier that takes every [OperationalError] for a conflict. *)
Definition always_retryable (e : PyExc) : bool := true.

(** A function that raises a conflict on its first [k] invocations and
    returns ["ok"] afterwards. *)
Definition conflicts_then_ok (k : nat) : Func string :=
  mkFunc "f" (fun i => if i <? k then inl (mkExc OperationalError i) else inr "ok"%string).

(** A function that raises a conflict on every invocation. *)
Definition always_conflicts : Func string :=
  mkFunc "f" (fun i => inl (mkExc OperationalError i)).

(** A function interrupted from the keyboard. *)
Definition interrupted : Func string :=
  mkFunc "f" (fun i => inl (mkExc BaseException 130)).

(** A function that raises a [ValueError]. *)
Definition raises_value_error : Func string :=
  mkFunc "f" (fun i => inl (mkExc Exception 22)).

(** ** Vocabulary of the statements on arbitrary sessions *)

(** The attempt numbers handed to [logger.debug], in order. *)
Fixpoint logs (tr : Trace) : list nat :=
  match tr with
  | [] => []
  | LogDebug n :: tr' => n :: logs tr'
  | _ :: tr' => logs tr'
  end.

Definition is_log_debug (ev : Event) : bool :=
  match ev with LogDebug _ => true | _ => false end.

(** The trace without its debug lines. *)
Definition strip_logs (tr : Trace) : Trace :=
  filter (fun ev => negb (is_log_debug ev)) tr.

(** Number of calls of [op] in a list of session calls. *)
Definition count_op (op : SessionOp) (ops : list SessionOp) : nat :=
  List.length (filter (SessionOp_eqb op) ops).

(** Invocation number [k] is replayed: it raises a retryable conflict,
    the budget allows one more attempt, and the [close] and the [begin]
    of the replay return. *)
Definition replay_ok (V : Type) (is_retryable_exception : PyExc -> bool)
  (retries : nat) (func : Func V) (s : Session) (k : nat) : Prop :=
  k + 1 <= retries /\
  raises_conflict is_retryable_exception (func_run func k) = true /\
  respond s close k = None /\
  respond s begin k = None.

(** The turn that ends the loop, when it is invocation number [k] and
    [k] replays came before, whatever the session answers: the events of
    that turn and the wrapper's outcome. *)
Inductive end_turn (V : Type) (is_retryable_exception : PyExc -> bool)
  (retries : nat) (logger : bool) (func : Func V) (s : Session) (k : nat)
  : Trace -> Outcome (option V) -> Prop :=
| end_returns v :
    func_run func k = inr v ->
    end_turn is_retryable_exception retries logger func s k
      [FuncCall] (Return (Some v))
| end_passes e :
    func_run func k = inl e ->
    exc_class e = BaseException ->
    end_turn is_retryable_exception retries logger func s k
      [FuncCall] (Raise (Original e))
| end_reraises e :
    func_run func k = inl e ->
    caught_not_retryable is_retryable_exception e = true ->
    respond s rollback 0 = None ->
    respond s begin k = None ->
    end_turn is_retryable_exception retries logger func s k
      [FuncCall; SessionCall (sid s) rollback; SessionCall (sid s) begin]
      (Raise (Original e))
| end_rollback_raises e e' :
    func_run func k = inl e ->
    caught_not_retryable is_retryable_exception e = true ->
    respond s rollback 0 = Some e' ->
    end_turn is_retryable_exception retries logger func s k
      [FuncCall; SessionCall (sid s) rollback]
      (Raise (Original e'))
| end_rebegin_raises e e' :
    func_run func k = inl e ->
    caught_not_retryable is_retryable_exception e = true ->
    respond s rollback 0 = None ->
    respond s begin k = Some e' ->
    end_turn is_retryable_exception retries logger func s k
      [FuncCall; SessionCall (sid s) rollback; SessionCall (sid s) begin]
      (Raise (Original e'))
| end_gives_up e :
    func_run func k = inl e ->
    retryable_conflict is_retryable_exception e = true ->
    respond s close k = None ->
    retries < k + 1 ->
    end_turn is_retryable_exception retries logger func s k
      [FuncCall; SessionCall (sid s) close]
      (Raise (UnresolvedDatabaseConflict (mkMessage (func_repr func) retries) e))
| end_close_raises e e' :
    func_run func k = inl e ->
    retryable_conflict is_retryable_exception e = true ->
    respond s close k = Some e' ->
    end_turn is_retryable_exception retries logger func s k
      [FuncCall; SessionCall (sid s) close]
      (Raise (Original e'))
| end_begin_raises e e' :
    func_run func k = inl e ->
    retryable_conflict is_retryable_exception e = true ->
    respond s close k = None ->
    k + 1 <= retries ->
    respond s begin k = Some e' ->
    end_turn is_retryable_exception retries logger func s k
      (retry_round (sid s) logger (k + 1))
      (Raise (Original e')).

(** ** Further sample collaborators *)

(** A session whose [close] raises an [OperationalError]. *)
Definition close_fails : Session :=
  mkSession 5
    (fun op _ => match op with
                 | close => Some (mkExc OperationalError 42)
                 | _ => None
                 end).

(** A session whose [begin] raises an [OperationalError]. *)
Definition begin_fails : Session :=
  mkSession 6
    (fun op _ => match op with
                 | begin => Some (mkExc OperationalError 43)
                 | _ => None
                 end).

(** A classifier that answers by the class of the exception alone. *)
Definition retryable_by_class (e : PyExc) : bool :=
  match exc_class e with
  | OperationalError => true
  | _ => false
  end.

Definition close_fails_self : Receiver := mkReceiver (Some close_fails) None.
Definition begin_fails_self : Receiver := mkReceiver (Some begin_fails) None.
Definition rollback_fails_self : Receiver := mkReceiver (Some rollback_fails) None.

(** * Properties *)

(** ** Counting in traces *)

Lemma ncalls_app s op tr1 tr2 :
  ncalls s op (tr1 ++ tr2) = ncalls s op tr1 + ncalls s op tr2.
Proof.
  unfold ncalls. rewrite filter_app, length_app. reflexivity.
Qed.

Lemma ncalls_one_call s op op' :
  ncalls s op [SessionCall s op'] = if SessionOp_eqb op op' then 1 else 0.
Proof.
  unfold ncalls. simpl. rewrite Nat.eqb_refl.
  destruct (SessionOp_eqb op op'); reflexivity.
Qed.

Lemma ncalls_other_event s op ev :
  is_session_call ev = false -> ncalls s op [ev] = 0.
Proof.
  destruct ev; simpl; intros H; try reflexivity; discriminate.
Qed.

Lemma invocations_app tr1 tr2 :
  invocations (tr1 ++ tr2) = invocations tr1 + invocations tr2.
Proof.
  unfold invocations. rewrite filter_app, length_app. reflexivity.
Qed.

Lemma session_calls_app tr1 tr2 :
  session_calls (tr1 ++ tr2) = session_calls tr1 ++ session_calls tr2.
Proof.
  induction tr1 as [|ev tr1 IH]; simpl; [reflexivity|].
  destruct ev; simpl; rewrite IH; reflexivity.
Qed.

Lemma sleeps_app tr1 tr2 : sleeps (tr1 ++ tr2) = sleeps tr1 ++ sleeps tr2.
Proof.
  induction tr1 as [|ev tr1 IH]; simpl; [reflexivity|].
  destruct ev; simpl; rewrite IH; reflexivity.
Qed.

(** Brings the count of calls in a trace built by appending events to
    the counts in its parts. *)
Ltac count_calls :=
  repeat (rewrite ncalls_app
          || rewrite ncalls_one_call
          || rewrite ncalls_other_event by reflexivity);
  cbn [SessionOp_eqb];
  rewrite ?Nat.add_0_r.

(** ** session_scope *)

Ltac tidy_scope :=
  repeat (progress cbn [app filter is_call SessionOp_eqb List.length fst snd
                        andb session_calls]
          || rewrite Nat.eqb_refl).

(** Unfolds one run of [session_scope] and splits on what each session
    call answers. *)
Ltac run_scope :=
  unfold run_session_scope, session_scope, bind, try_finally, try_except,
    call, emit, lift, ret, raise, ncalls;
  tidy_scope;
  repeat (match goal with
          | H : respond ?s ?op ?i = _ |- context [respond ?s ?op ?i] => rewrite H
          | H : ?w ?s = _ |- context [?w ?s] => rewrite H
          | |- context [match respond ?s ?op ?i with _ => _ end] =>
              destruct (respond s op i) eqn:?
          end; tidy_scope).

Section SessionScopeFacts.

Variable V : Type.
Variable s : Session.
Variable work : Session -> PyExc + V.

(** C5, amended.  When the work returns [v] and the session's [begin],
    [commit] and [close] return, [session_scope] calls exactly [begin],
    [commit], [close], once each and in that order, with the work in
    between, never [rollback], and hands back [v]. *)
Theorem session_scope_success v :
  work s = inr v ->
  returns_upto s begin 1 -> returns_upto s commit 1 -> returns_upto s close 1 ->
  run_session_scope s work =
    ([SessionCall (sid s) begin; Yield;
      SessionCall (sid s) commit; SessionCall (sid s) close],
     Return v).
Proof.
  intros Hw Hb Hc Hcl.
  pose proof (Hb 0 Nat.lt_0_1) as Hb0.
  pose proof (Hc 0 Nat.lt_0_1) as Hc0.
  pose proof (Hcl 0 Nat.lt_0_1) as Hcl0.
  run_scope. reflexivity.
Qed.

(** C6, amended.  When the work raises [e], of whatever class, and the
    session's [begin], [rollback] and [close] return, [session_scope]
    calls exactly [begin], [rollback], [close], once each and in that
    order, and the exception that leaves it is [e] itself. *)
Theorem session_scope_failure e :
  work s = inl e ->
  returns_upto s begin 1 -> returns_upto s rollback 1 -> returns_upto s close 1 ->
  run_session_scope s work =
    ([SessionCall (sid s) begin; Yield;
      SessionCall (sid s) rollback; SessionCall (sid s) close],
     Raise (Original e)).
Proof.
  intros Hw Hb Hr Hcl.
  pose proof (Hb 0 Nat.lt_0_1) as Hb0.
  pose proof (Hr 0 Nat.lt_0_1) as Hr0.
  pose proof (Hcl 0 Nat.lt_0_1) as Hcl0.
  run_scope. reflexivity.
Qed.

(** C7.  Once [begin] has returned, whatever the work does and whatever
    [commit], [rollback] and [close] answer, [close] is called exactly
    once; it is the last call, and [commit] or [rollback] was called
    before it. *)
Theorem session_scope_closes_once :
  returns_upto s begin 1 ->
  let tr := fst (run_session_scope s work) in
  ncalls (sid s) close tr = 1 /\
  exists tr',
    tr = tr' ++ [SessionCall (sid s) close] /\
    (In (SessionCall (sid s) commit) tr' \/
     In (SessionCall (sid s) rollback) tr').
Proof.
  intros Hb tr. subst tr.
  pose proof (Hb 0 Nat.lt_0_1) as Hb0.
  destruct (work s) eqn:Hw; run_scope;
    (split;
     [ unfold ncalls; tidy_scope; reflexivity
     | match goal with
       | |- exists _, ?l = _ ++ _ /\ _ => exists (removelast l)
       end;
       split; [reflexivity | simpl; tauto] ]).
Qed.

(** C8, amended.  The session calls of one run are [begin], [commit],
    [close] when the work and [commit] return; [begin], [rollback],
    [close] when the work raises; [begin], [commit], [rollback],
    [close] when the work returns and [commit] raises; and [begin]
    alone when [begin] raises. *)
Theorem session_scope_call_orders :
  session_calls (fst (run_session_scope s work)) =
    match respond s begin 0 with
    | Some _ => [begin]
    | None =>
        match work s with
        | inr _ =>
            match respond s commit 0 with
            | None => [begin; commit; close]
            | Some _ => [begin; commit; rollback; close]
            end
        | inl _ => [begin; rollback; close]
        end
    end.
Proof.
  destruct (work s) eqn:Hw; run_scope; reflexivity.
Qed.

End SessionScopeFacts.

(** ** The events of the replays *)

Lemma invocations_retry_round s logger a :
  invocations (retry_round s logger a) = 1.
Proof. destruct logger; reflexivity. Qed.

Lemma invocations_retry_rounds s logger a k :
  invocations (retry_rounds s logger a k) = k.
Proof.
  revert a. induction k as [|k IH]; intros a; cbn [retry_rounds]; [reflexivity|].
  rewrite invocations_app, invocations_retry_round, IH. reflexivity.
Qed.

Lemma ncalls_retry_round s logger a op :
  ncalls s op (retry_round s logger a) =
    match op with close | begin => 1 | _ => 0 end.
Proof.
  unfold retry_round, ncalls.
  destruct logger, op; simpl; rewrite ?Nat.eqb_refl; reflexivity.
Qed.

Lemma ncalls_retry_rounds s logger a k op :
  ncalls s op (retry_rounds s logger a k) =
    match op with close | begin => k | _ => 0 end.
Proof.
  revert a. induction k as [|k IH]; intros a; cbn [retry_rounds].
  - destruct op; reflexivity.
  - rewrite ncalls_app, ncalls_retry_round, IH. destruct op; reflexivity.
Qed.

Lemma sleeps_retry_rounds s logger a k :
  sleeps (retry_rounds s logger a k) = repeat retry_delay k.
Proof.
  revert a. induction k as [|k IH]; intros a; cbn [retry_rounds]; [reflexivity|].
  rewrite sleeps_app, IH. destruct logger; reflexivity.
Qed.

Lemma session_calls_retry_rounds s logger a k :
  session_calls (retry_rounds s logger a k) = List.concat (repeat [close; begin] k).
Proof.
  revert a. induction k as [|k IH]; intros a; cbn [retry_rounds]; [reflexivity|].
  rewrite session_calls_app, IH. destruct logger; reflexivity.
Qed.

Lemma existsb_begin_retry_rounds s logger a k :
  existsb is_begin (retry_rounds s logger a k) = (0 <? k).
Proof.
  destruct k as [|k]; [reflexivity|].
  cbn [retry_rounds]. rewrite existsb_app.
  unfold retry_round. destruct logger; reflexivity.
Qed.

(** ** One turn of the retry loop *)

Section LoopFacts.

Variable V : Type.
Variable is_retryable_exception : PyExc -> bool.
Variable retries : nat.
Variable logger : bool.
Variable func : Func V.
Variable s : Session.

Local Abbreviation body := (loop_body is_retryable_exception retries logger func s).
Local Abbreviation loop := (fun fuel => while_loop is_retryable_exception retries logger func fuel s).

Lemma loop_body_returns a tr v :
  func_run func (invocations tr) = inr v ->
  body a tr = (tr ++ [FuncCall], Return (Returned v)).
Proof.
  intros Hf. unfold loop_body, bind, invoke. rewrite Hf. reflexivity.
Qed.

Lemma loop_body_passes a tr e :
  func_run func (invocations tr) = inl e ->
  exc_class e = BaseException ->
  body a tr = (tr ++ [FuncCall], Raise (Original e)).
Proof.
  intros Hf Hc. unfold loop_body, bind, invoke. rewrite Hf, Hc. reflexivity.
Qed.

Lemma loop_body_replays a tr :
  raises_conflict is_retryable_exception (func_run func (invocations tr)) = true ->
  a + 1 <= retries ->
  respond s close (ncalls (sid s) close tr) = None ->
  respond s begin (ncalls (sid s) begin tr) = None ->
  body a tr = (tr ++ retry_round (sid s) logger (a + 1), Return (Continue (a + 1))).
Proof.
  intros Hf Ha Hcl Hb.
  unfold loop_body, bind, invoke.
  destruct (func_run func (invocations tr)) as [e|v]; [|discriminate].
  unfold raises_conflict, retryable_conflict in Hf.
  destruct (exc_class e); try discriminate. rewrite Hf.
  unfold call, emit, ret. count_calls. rewrite Hcl. cbn beta iota zeta.
  destruct (Nat.ltb_spec retries (a + 1)) as [Hlt|_]; [lia|].
  unfold retry_round.
  destruct logger; cbn beta iota; count_calls; rewrite Hb;
    repeat rewrite <- app_assoc; reflexivity.
Qed.

Lemma loop_body_gives_up a tr e :
  func_run func (invocations tr) = inl e ->
  retryable_conflict is_retryable_exception e = true ->
  retries < a + 1 ->
  respond s close (ncalls (sid s) close tr) = None ->
  body a tr =
    (tr ++ [FuncCall; SessionCall (sid s) close],
     Raise (UnresolvedDatabaseConflict (mkMessage (func_repr func) retries) e)).
Proof.
  intros Hf Hr Ha Hcl.
  unfold loop_body, bind, invoke. rewrite Hf.
  unfold retryable_conflict in Hr.
  destruct (exc_class e); try discriminate. rewrite Hr.
  unfold call, raise. count_calls. rewrite Hcl. cbn beta iota zeta.
  destruct (Nat.ltb_spec retries (a + 1)) as [_|Hge]; [|lia].
  rewrite <- app_assoc. reflexivity.
Qed.

Lemma loop_body_reraises a tr e :
  func_run func (invocations tr) = inl e ->
  caught_not_retryable is_retryable_exception e = true ->
  respond s rollback (ncalls (sid s) rollback tr) = None ->
  respond s begin (ncalls (sid s) begin tr) = None ->
  body a tr =
    (tr ++ [FuncCall; SessionCall (sid s) rollback; SessionCall (sid s) begin],
     Raise (Original e)).
Proof.
  intros Hf Hc Hr Hb.
  unfold loop_body, bind, invoke. rewrite Hf.
  unfold caught_not_retryable in Hc.
  destruct (exc_class e); try discriminate;
    [destruct (is_retryable_exception e); [discriminate|] |];
    unfold call, raise; count_calls; rewrite Hr; cbn beta iota;
    count_calls; rewrite Hb;
    repeat rewrite <- app_assoc; reflexivity.
Qed.

(** A turn either ends the loop or advances the counter by one, within
    the budget. *)
Lemma loop_body_continue a tr tr' a' :
  body a tr = (tr', Return (Continue a')) ->
  a' = a + 1 /\ a' <= retries.
Proof.
  unfold loop_body, bind, invoke, call, emit, ret, raise.
  destruct (func_run func (invocations tr)) as [e|v]; [|discriminate].
  destruct (exc_class e); try discriminate.
  - destruct (is_retryable_exception e).
    + destruct (respond s close _); [discriminate|]. cbn beta iota zeta.
      destruct (Nat.ltb_spec retries (a + 1)); [discriminate|].
      destruct logger; cbn beta iota;
        (destruct (respond s begin _); [discriminate|]);
        intros Heq; inversion Heq; (split; [reflexivity | lia]).
    + destruct (respond s rollback _); [discriminate|]. cbn beta iota.
      destruct (respond s begin _); discriminate.
  - destruct (respond s rollback _); [discriminate|]. cbn beta iota.
    destruct (respond s begin _); discriminate.
Qed.

(** Every turn records its session calls on [s]. *)
Lemma loop_body_on_session a tr :
  on_session (sid s) tr -> on_session (sid s) (fst (body a tr)).
Proof.
  intros Htr.
  assert (Hsnoc : forall l,
             (forall s' op, In (SessionCall s' op) l -> s' = sid s) ->
             on_session (sid s) (tr ++ l)).
  { intros l Hl s' op Hin. apply in_app_or in Hin.
    destruct Hin as [Hin|Hin]; [eapply Htr | eapply Hl]; eassumption. }
  unfold loop_body, bind, invoke, call, emit, ret, raise.
  destruct (func_run func (invocations tr)) as [e|v];
    [destruct (exc_class e); [destruct (is_retryable_exception e)| |] |];
    repeat (cbn beta iota zeta;
            match goal with
            | |- context [match respond ?x ?op ?i with _ => _ end] =>
                destruct (respond x op i)
            | |- context [if ?b then _ else _] => destruct b
            end);
    cbn [fst]; repeat rewrite <- app_assoc; apply Hsnoc;
    simpl; intros s' op Hin;
    repeat (destruct Hin as [Hin|Hin]; [congruence|]); contradiction.
Qed.

(** ** The whole loop *)

(** The loop ends within [retries + 1] turns, whatever the function and
    the session do. *)
Lemma while_loop_terminates fuel :
  forall a tr,
    a <= retries -> retries < a + fuel ->
    exists r, loop fuel a tr = Some r.
Proof.
  induction fuel as [|fuel IH]; intros a tr Ha Hfuel; [lia|].
  cbn [while_loop].
  destruct (Nat.leb_spec a retries) as [Hle|Hgt]; [|eauto].
  destruct (body a tr) as [tr' [[v|a']|r]] eqn:Hb; eauto.
  apply loop_body_continue in Hb. destruct Hb as [-> Hb].
  apply IH; lia.
Qed.

Lemma while_loop_on_session fuel :
  forall a tr tr' out,
    on_session (sid s) tr ->
    loop fuel a tr = Some (tr', out) ->
    on_session (sid s) tr'.
Proof.
  induction fuel as [|fuel IH]; intros a tr tr' out Htr; [discriminate|].
  cbn [while_loop].
  destruct (a <=? retries); [|intros H; inversion H; subst; assumption].
  pose proof (loop_body_on_session a Htr) as Hb.
  destruct (body a tr) as [tr1 [[v|a']|r]]; cbn [fst] in Hb.
  - intros H; inversion H; subst; assumption.
  - apply IH; assumption.
  - intros H; inversion H; subst; assumption.
Qed.

Lemma at_head_start : at_head (sid s) 0 [].
Proof. repeat split. Qed.

Lemma at_head_round a tr :
  at_head (sid s) a tr -> at_head (sid s) (a + 1) (tr ++ retry_round (sid s) logger (a + 1)).
Proof.
  intros (Hi & Hc & Hb & Hr). unfold at_head.
  rewrite invocations_app, invocations_retry_round, !ncalls_app, !ncalls_retry_round.
  lia.
Qed.

(** [k] conflicts in a row, within the budget, cost [k] turns and leave
    the loop at its head with the counter advanced by [k]. *)
Lemma while_loop_replays k :
  forall fuel a tr,
    at_head (sid s) a tr ->
    (forall i, i < k ->
       raises_conflict is_retryable_exception (func_run func (a + i)) = true) ->
    a + k <= retries ->
    returns_upto s close (a + k) -> returns_upto s begin (a + k) ->
    loop (k + fuel) a tr =
      loop fuel (a + k) (tr ++ retry_rounds (sid s) logger a k) /\
    at_head (sid s) (a + k) (tr ++ retry_rounds (sid s) logger a k).
Proof.
  induction k as [|k IH]; intros fuel a tr Hhead Hf Hk Hcl Hb.
  - simpl. rewrite Nat.add_0_r, app_nil_r. split; [reflexivity | assumption].
  - cbn [Nat.add while_loop retry_rounds].
    destruct (Nat.leb_spec a retries) as [_|Hgt]; [|lia].
    pose proof Hhead as (Hinv & Hnc & Hnb & _).
    rewrite loop_body_replays; try lia.
    + destruct (IH fuel (a + 1) (tr ++ retry_round (sid s) logger (a + 1)))
        as [Hrun Hhead']; try lia.
      * apply at_head_round; assumption.
      * intros i Hi. replace (a + 1 + i) with (a + S i) by lia. apply Hf. lia.
      * intros i Hi. apply Hcl. lia.
      * intros i Hi. apply Hb. lia.
      * rewrite <- app_assoc in Hrun, Hhead'.
        replace (a + 1 + k) with (a + S k) in Hrun, Hhead' by lia.
        split; assumption.
    + rewrite Hinv. specialize (Hf 0). rewrite Nat.add_0_r in Hf. apply Hf. lia.
    + rewrite Hnc. apply Hcl. lia.
    + rewrite Hnb. apply Hb. lia.
Qed.

(** When the session's calls return, a run from the loop's head is some
    replays followed by a last turn. *)
Lemma while_loop_runs fuel :
  forall a tr,
    at_head (sid s) a tr ->
    a <= retries -> retries < a + fuel ->
    returns_upto s close (retries + 1) ->
    returns_upto s begin (retries + 1) ->
    returns_upto s rollback 1 ->
    exists j tail out,
      a + j <= retries /\
      (forall i, i < j ->
         raises_conflict is_retryable_exception (func_run func (a + i)) = true) /\
      last_turn is_retryable_exception retries func (sid s) (a + j) tail out /\
      loop fuel a tr =
        Some (tr ++ retry_rounds (sid s) logger a j ++ tail, out).
Proof.
  induction fuel as [|fuel IH]; intros a tr Hhead Ha Hfuel Hcl Hb Hr; [lia|].
  pose proof Hhead as (Hinv & Hnc & Hnb & Hnr).
  assert (Hcl' : respond s close (ncalls (sid s) close tr) = None)
    by (rewrite Hnc; apply Hcl; lia).
  assert (Hb' : respond s begin (ncalls (sid s) begin tr) = None)
    by (rewrite Hnb; apply Hb; lia).
  assert (Hr' : respond s rollback (ncalls (sid s) rollback tr) = None)
    by (rewrite Hnr; apply Hr; lia).
  cbn [while_loop].
  destruct (Nat.leb_spec a retries) as [_|Hgt]; [|lia].
  destruct (func_run func (invocations tr)) as [e|v] eqn:Hf.
  - destruct (retryable_conflict is_retryable_exception e) eqn:Hrc.
    + destruct (Nat.le_gt_cases (a + 1) retries) as [Hin|Hout].
      * (* replay *)
        rewrite loop_body_replays; try assumption;
          [|rewrite Hf; exact Hrc].
        destruct (IH (a + 1) (tr ++ retry_round (sid s) logger (a + 1)))
          as (j & tail & out & Hj & Hconf & Hlast & Hrun); try assumption; try lia.
        { apply at_head_round; assumption. }
        exists (S j), tail, out.
        replace (a + S j) with (a + 1 + j) by lia.
        repeat split; try assumption.
        -- intros i Hi. destruct i as [|i].
           ++ rewrite Nat.add_0_r, <- Hinv, Hf. exact Hrc.
           ++ replace (a + S i) with (a + 1 + i) by lia. apply Hconf. lia.
        -- rewrite Hrun. cbn [retry_rounds]. repeat rewrite <- app_assoc. reflexivity.
      * (* the budget is spent *)
        rewrite loop_body_gives_up with (e := e); try assumption; try lia.
        exists 0, [FuncCall; SessionCall (sid s) close]. eexists.
        rewrite Nat.add_0_r. repeat split; try reflexivity; try lia.
        apply turn_gives_up; [rewrite <- Hinv; exact Hf | exact Hrc | lia].
    + destruct (caught_not_retryable is_retryable_exception e) eqn:Hcn.
      * rewrite loop_body_reraises with (e := e); try assumption.
        exists 0, [FuncCall; SessionCall (sid s) rollback; SessionCall (sid s) begin].
        eexists. rewrite Nat.add_0_r. repeat split; try reflexivity; try lia.
        apply turn_reraises; [rewrite <- Hinv; exact Hf | exact Hcn].
      * assert (Hc : exc_class e = BaseException).
        { unfold retryable_conflict in Hrc. unfold caught_not_retryable in Hcn.
          destruct (exc_class e); try reflexivity; try discriminate.
          destruct (is_retryable_exception e); discriminate. }
        rewrite loop_body_passes with (e := e); try assumption.
        exists 0, [FuncCall]. eexists.
        rewrite Nat.add_0_r. repeat split; try reflexivity; try lia.
        apply turn_passes; [rewrite <- Hinv; exact Hf | exact Hc].
  - rewrite loop_body_returns with (v := v); try assumption.
    exists 0, [FuncCall]. eexists.
    rewrite Nat.add_0_r. repeat split; try reflexivity; try lia.
    apply turn_returns. rewrite <- Hinv. exact Hf.
Qed.

(** ** The wrapper on a resolved session *)

Local Abbreviation run := (wrapped is_retryable_exception retries logger func).

(** The wrapper, once the session is resolved, after [k] conflicts in a
    row within the budget. *)
Lemma wrapped_after_replays self k :
  resolve_session self = inr s ->
  (forall i, i < k ->
     raises_conflict is_retryable_exception (func_run func i) = true) ->
  k <= retries ->
  returns_upto s close k -> returns_upto s begin k ->
  run self = loop (S (retries - k)) k (retry_rounds (sid s) logger 0 k) /\
  at_head (sid s) k (retry_rounds (sid s) logger 0 k).
Proof.
  intros Hres Hconf Hk Hcl Hb.
  unfold wrapped. rewrite Hres.
  replace (S retries) with (k + S (retries - k)) by lia.
  apply (while_loop_replays (k := k) (S (retries - k)) (a := 0) (tr := []));
    try assumption; try lia.
  apply at_head_start.
Qed.

(** C1.  The function raises a retryable conflict on its first [k]
    invocations and returns [v] on the next, with [k <= retries], the
    [k] calls of [close] and of [begin] that the replays make
    returning.  Then [wrapped] returns [v]; its trace is [k] replays and
    the returning invocation, so [close] was called [k] times and
    [begin] [k] times on the resolved session, and [time.sleep] [k]
    times, each with 0.1 s, that is 100 ms. *)
Theorem wrapped_retries_then_returns self k v :
  resolve_session self = inr s ->
  (forall i, i < k ->
     raises_conflict is_retryable_exception (func_run func i) = true) ->
  func_run func k = inr v ->
  k <= retries ->
  returns_upto s close k -> returns_upto s begin k ->
  let tr := retry_rounds (sid s) logger 0 k ++ [FuncCall] in
  run self = Some (tr, Return (Some v)) /\
  ncalls (sid s) close tr = k /\
  ncalls (sid s) begin tr = k /\
  sleeps tr = repeat retry_delay k /\
  (retry_delay * 1000 == 100)%Q.
Proof.
  intros Hres Hconf Hv Hk Hcl Hb tr. subst tr.
  destruct (wrapped_after_replays self Hres Hconf Hk Hcl Hb) as [Hrun (Hinv & _)].
  split; [|split; [|split; [|split]]].
  - rewrite Hrun. cbn [while_loop].
    destruct (Nat.leb_spec k retries) as [_|Hgt]; [|lia].
    rewrite loop_body_returns with (v := v); [reflexivity|].
    rewrite Hinv. exact Hv.
  - rewrite ncalls_app, ncalls_retry_rounds. count_calls. reflexivity.
  - rewrite ncalls_app, ncalls_retry_rounds. count_calls. reflexivity.
  - rewrite sleeps_app, sleeps_retry_rounds. apply app_nil_r.
  - reflexivity.
Qed.

(** C2, amended.  The function raises a retryable conflict on every
    invocation, and the calls of [close] and [begin] that the wrapper
    makes return.  Then [wrapped] raises [UnresolvedDatabaseConflict]
    after [retries + 1] invocations; its cause is the conflict of the
    last invocation, and its message carries the function and
    [retries], the budget, which it gives as the number of attempts. *)
Theorem wrapped_gives_up self :
  resolve_session self = inr s ->
  (forall i, raises_conflict is_retryable_exception (func_run func i) = true) ->
  returns_upto s close (retries + 1) -> returns_upto s begin retries ->
  exists e,
    func_run func retries = inl e /\
    let tr := retry_rounds (sid s) logger 0 retries
                ++ [FuncCall; SessionCall (sid s) close] in
    let out : Outcome (option V) :=
      Raise (UnresolvedDatabaseConflict (mkMessage (func_repr func) retries) e) in
    run self = Some (tr, out) /\
    invocations tr = retries + 1 /\
    reported_attempts out = Some retries.
Proof.
  intros Hres Hconf Hcl Hb.
  pose proof (Hconf retries) as Hlast.
  destruct (func_run func retries) as [e|v] eqn:Hf; [|discriminate].
  exists e. split; [reflexivity|]. cbn zeta.
  destruct (@wrapped_after_replays self retries Hres) as [Hrun (Hinv & Hnc & _)];
    try assumption; try lia.
  { intros i _. apply Hconf. }
  { intros i Hi. apply Hcl. lia. }
  split; [|split].
  - rewrite Hrun. cbn [while_loop].
    destruct (Nat.leb_spec retries retries) as [_|Hgt]; [|lia].
    rewrite loop_body_gives_up with (e := e); try assumption; try lia.
    + reflexivity.
    + rewrite Hinv. exact Hf.
    + rewrite Hnc. apply Hcl. lia.
  - rewrite invocations_app, invocations_retry_rounds. reflexivity.
  - reflexivity.
Qed.

(** C3, amended.  After [k <= retries] replays the function raises [e],
    which one of the two handlers catches and which is not a retryable
    conflict: a non-retryable [OperationalError] or another [Exception].
    The session calls that the wrapper makes return.  Then [wrapped]
    calls [rollback], then [begin], and raises [e] itself; after the
    failing invocation it neither sleeps nor invokes the function.  When
    the first invocation fails ([k = 0]) the trace is that invocation,
    [rollback], [begin]. *)
Theorem wrapped_reraises self k e :
  resolve_session self = inr s ->
  (forall i, i < k ->
     raises_conflict is_retryable_exception (func_run func i) = true) ->
  func_run func k = inl e ->
  caught_not_retryable is_retryable_exception e = true ->
  k <= retries ->
  returns_upto s close k -> returns_upto s begin (k + 1) ->
  returns_upto s rollback 1 ->
  let tr := retry_rounds (sid s) logger 0 k
              ++ [FuncCall; SessionCall (sid s) rollback; SessionCall (sid s) begin] in
  run self = Some (tr, Raise (Original e)) /\
  sleeps tr = repeat retry_delay k /\
  invocations tr = k + 1.
Proof.
  intros Hres Hconf He Hcn Hk Hcl Hb Hr tr. subst tr.
  destruct (@wrapped_after_replays self k Hres)
    as [Hrun (Hinv & _ & Hnb & Hnr)]; try assumption.
  { intros i Hi. apply Hb. lia. }
  split; [|split].
  - rewrite Hrun. cbn [while_loop].
    destruct (Nat.leb_spec k retries) as [_|Hgt]; [|lia].
    rewrite loop_body_reraises with (e := e); try assumption.
    + reflexivity.
    + rewrite Hinv. exact He.
    + rewrite Hnr. apply Hr. lia.
    + rewrite Hnb. apply Hb. lia.
  - rewrite sleeps_app, sleeps_retry_rounds. apply app_nil_r.
  - rewrite invocations_app, invocations_retry_rounds. reflexivity.
Qed.

(** C10.  After [k <= retries] replays the function raises [e], which is
    neither an [OperationalError] nor an [Exception].  Then [wrapped]
    raises [e] itself and records nothing after the invocation: no
    [rollback], [begin], [close] or sleep.  When the first invocation
    raises it ([k = 0]) the trace is that invocation alone, whatever the
    session would answer. *)
Theorem wrapped_passes_base_exception self k e :
  resolve_session self = inr s ->
  (forall i, i < k ->
     raises_conflict is_retryable_exception (func_run func i) = true) ->
  func_run func k = inl e ->
  exc_class e = BaseException ->
  k <= retries ->
  returns_upto s close k -> returns_upto s begin k ->
  run self =
    Some (retry_rounds (sid s) logger 0 k ++ [FuncCall], Raise (Original e)).
Proof.
  intros Hres Hconf He Hc Hk Hcl Hb.
  destruct (wrapped_after_replays self Hres Hconf Hk Hcl Hb) as [Hrun (Hinv & _)].
  rewrite Hrun. cbn [while_loop].
  destruct (Nat.leb_spec k retries) as [_|Hgt]; [|lia].
  rewrite loop_body_passes with (e := e); try assumption; [reflexivity|].
  rewrite Hinv. exact He.
Qed.

(** C9, amended.  When the session calls that the wrapper makes return,
    [wrapped] ends, and at its end:
    - it has called [begin] exactly when the function was invoked more
      than once (it was replayed) or a caught, non-retryable exception
      is being re-raised;
    - when it returns, the returning invocation is the last event, and
      its session calls are one [close], [begin] pair per earlier
      replay and nothing else, so none at all, and no [rollback] ever,
      when the first invocation returned;
    - when it raises [UnresolvedDatabaseConflict], its last event is a
      [close], with no [begin] after it. *)
Theorem wrapped_begin_iff self :
  resolve_session self = inr s ->
  returns_upto s close (retries + 1) ->
  returns_upto s begin (retries + 1) ->
  returns_upto s rollback 1 ->
  exists tr out,
    run self = Some (tr, out) /\
    (existsb is_begin tr = true <->
       1 < invocations tr \/
       exists e, out = Raise (Original e) /\
                 caught_not_retryable is_retryable_exception e = true) /\
    (forall v, out = Return v ->
       session_calls tr = List.concat (repeat [close; begin] (invocations tr - 1)) /\
       exists tr', tr = tr' ++ [FuncCall]) /\
    (forall m c, out = Raise (UnresolvedDatabaseConflict m c) ->
       exists tr', tr = tr' ++ [SessionCall (sid s) close]).
Proof.
  intros Hres Hcl Hb Hr.
  destruct (@while_loop_runs (S retries) 0 [])
    as (j & tail & out & Hj & _ & Hlast & Hrun);
    try assumption; try lia; [apply at_head_start|].
  cbn [Nat.add app] in *.
  exists (retry_rounds (sid s) logger 0 j ++ tail), out.
  split; [unfold wrapped; rewrite Hres; exact Hrun|].
  rewrite existsb_app, existsb_begin_retry_rounds,
    invocations_app, invocations_retry_rounds, session_calls_app,
    session_calls_retry_rounds.
  destruct Hlast as [v Hf | e Hf Hc | e Hf Hcn | e Hf Hrc Hk];
    cbn [existsb is_begin orb invocations filter is_func_call List.length
           session_calls];
    rewrite ?orb_false_r, ?orb_true_r, ?app_nil_r;
    replace (j + 1 - 1) with j by lia;
    (split; [|split]).
  - rewrite Nat.ltb_lt. split; [intros; left; lia|].
    intros [H|(e & He & _)]; [lia | discriminate].
  - intros _ _. split; [reflexivity | eauto].
  - intros m c Hm. discriminate.
  - rewrite Nat.ltb_lt. split; [intros; left; lia|].
    intros [H|(e' & He & Hcn)]; [lia|].
    inversion He; subst e'. unfold caught_not_retryable in Hcn.
    rewrite Hc in Hcn. discriminate.
  - intros v Hv. discriminate.
  - intros m c Hm. discriminate.
  - split; [intros _; right; eauto | reflexivity].
  - intros v Hv. discriminate.
  - intros m c Hm. discriminate.
  - rewrite Nat.ltb_lt. split; [intros; left; lia|].
    intros [H|(e' & He & _)]; [lia | discriminate].
  - intros v Hv. discriminate.
  - intros m c _. exists (retry_rounds (sid s) logger 0 j ++ [FuncCall]).
    rewrite <- app_assoc. reflexivity.
Qed.

End LoopFacts.

(** ** Resolving the session *)

Section WrapperFacts.

Variable V : Type.
Variable is_retryable_exception : PyExc -> bool.
Variable retries : nat.
Variable logger : bool.
Variable func : Func V.

Local Abbreviation run := (wrapped is_retryable_exception retries logger func).
Local Abbreviation loop := (while_loop is_retryable_exception retries logger func).

(** [wrapped] always comes to an end. *)
Lemma wrapped_terminates self : exists r, run self = Some r.
Proof.
  unfold wrapped. destruct (resolve_session self) as [r|s]; [eauto|].
  apply while_loop_terminates; lia.
Qed.

Lemma resolve_session_mapper self s :
  _session self = Some s -> resolve_session self = inr s.
Proof. unfold resolve_session. intros ->. reflexivity. Qed.

Lemma resolve_session_manager self m :
  _session self = None -> _mapper self = Some m ->
  resolve_session self = inr (session m).
Proof. unfold resolve_session. intros -> ->. reflexivity. Qed.

(** Whatever the wrapper does on a session, it does on the resolved
    one. *)
Lemma wrapped_on_resolved self s :
  resolve_session self = inr s ->
  run self = loop (S retries) s 0 [] /\
  exists tr out, run self = Some (tr, out) /\ on_session (sid s) tr.
Proof.
  intros Hres. unfold wrapped. rewrite Hres. split; [reflexivity|].
  destruct (@while_loop_terminates V is_retryable_exception retries logger func s
              (S retries) 0 [])
    as [[tr out] Hrun]; try lia.
  exists tr, out. split; [exact Hrun|].
  eapply while_loop_on_session; [|exact Hrun].
  intros s' op Hin. destruct Hin.
Qed.

(** C4.  The wrapper works on [self._session] when [self] has that
    attribute; otherwise on [self._mapper.session] when [self] has
    [_mapper]: the loop runs on that session and every session call of
    the run is made on it.  With neither attribute it raises
    [RuntimeError('Invalid decorator usage')] with an empty trace: no
    session call and no invocation of the function came before. *)
Theorem wrapped_resolves_session self :
  (forall s, _session self = Some s ->
     run self = loop (S retries) s 0 [] /\
     exists tr out, run self = Some (tr, out) /\ on_session (sid s) tr) /\
  (forall m, _session self = None -> _mapper self = Some m ->
     run self = loop (S retries) (session m) 0 [] /\
     exists tr out, run self = Some (tr, out) /\ on_session (sid (session m)) tr) /\
  (_session self = None -> _mapper self = None ->
     run self = Some ([], Raise (RuntimeError "Invalid decorator usage"))).
Proof.
  split; [|split].
  - intros s Hs. apply wrapped_on_resolved, resolve_session_mapper, Hs.
  - intros m Hs Hm. apply wrapped_on_resolved, resolve_session_manager; assumption.
  - intros Hs Hm. unfold wrapped, resolve_session. rewrite Hs, Hm. reflexivity.
Qed.

End WrapperFacts.

(** ** The theorems at sample inputs *)

(** [session_scope_success] on a quiet session, the work returning 5. *)
Lemma session_scope_success_witness :
  run_session_scope quiet_session (fun _ => inr 5) =
    ([SessionCall 1 begin; Yield; SessionCall 1 commit; SessionCall 1 close],
     Return 5).
Proof.
  apply (@session_scope_success nat quiet_session (fun _ => inr 5) 5);
    [reflexivity | intros i Hi; reflexivity ..].
Defined.

(** C5 as stated fails: the work returns, [commit] raises, and
    [session_scope] calls [rollback] and raises instead of handing back
    the work's value. *)
Lemma session_scope_commit_raises_rolls_back :
  let work := fun _ : Session => inr 5 : PyExc + nat in
  work commit_fails = inr 5 /\
  run_session_scope commit_fails work =
    ([SessionCall 2 begin; Yield; SessionCall 2 commit;
      SessionCall 2 rollback; SessionCall 2 close],
     Raise (Original (mkExc OperationalError 40))) /\
  ncalls 2 rollback (fst (run_session_scope commit_fails work)) <> 0.
Proof.
  split; [reflexivity|]. split; [reflexivity|]. discriminate.
Qed.

(** [session_scope_failure] on a quiet session, the work interrupted from
    the keyboard. *)
Lemma session_scope_failure_witness :
  run_session_scope quiet_session
    (fun _ => inl (mkExc BaseException 130) : PyExc + nat) =
    ([SessionCall 1 begin; Yield; SessionCall 1 rollback; SessionCall 1 close],
     Raise (Original (mkExc BaseException 130))).
Proof.
  apply (@session_scope_failure nat quiet_session
           (fun _ => inl (mkExc BaseException 130)) (mkExc BaseException 130));
    [reflexivity | intros i Hi; reflexivity ..].
Defined.

(** C6 as stated fails: the work raises a [ValueError], [rollback]
    raises, and the exception that leaves [session_scope] is the one of
    [rollback], not the work's. *)
Lemma session_scope_rollback_raises_masks_error :
  let work := fun _ : Session => inl (mkExc Exception 22) : PyExc + nat in
  work rollback_fails = inl (mkExc Exception 22) /\
  run_session_scope rollback_fails work =
    ([SessionCall 3 begin; Yield; SessionCall 3 rollback; SessionCall 3 close],
     Raise (Original (mkExc OperationalError 41))) /\
  snd (run_session_scope rollback_fails work) <> Raise (Original (mkExc Exception 22)).
Proof.
  split; [reflexivity|]. split; [reflexivity|]. discriminate.
Qed.

(** [session_scope_closes_once] when [commit] raises. *)
Lemma session_scope_closes_once_witness :
  let tr := fst (run_session_scope commit_fails (fun _ => inr 5)) in
  ncalls 2 close tr = 1 /\
  exists tr',
    tr = tr' ++ [SessionCall 2 close] /\
    (In (SessionCall 2 commit) tr' \/ In (SessionCall 2 rollback) tr').
Proof.
  apply (@session_scope_closes_once nat commit_fails (fun _ => inr 5)).
  intros i Hi; reflexivity.
Defined.

(** C8 as stated fails: when [commit] raises, [rollback] follows it, and
    the session calls are neither of the two orders. *)
Lemma session_scope_commit_then_rollback :
  let calls := session_calls (fst (run_session_scope commit_fails (fun _ => inr 5))) in
  calls = [begin; commit; rollback; close] /\
  ~ (calls = [begin; commit; close] \/ calls = [begin; rollback; close]).
Proof.
  split; [reflexivity|].
  intros [H|H]; discriminate H.
Qed.

(** [wrapped_retries_then_returns]: two conflicts, then ["ok"], with a
    budget of two and a logger. *)
Lemma wrapped_retries_then_returns_witness :
  let tr := retry_rounds 1 true 0 2 ++ [FuncCall] in
  wrapped always_retryable 2 true (conflicts_then_ok 2) mapper_self =
    Some (tr, Return (Some "ok"%string)) /\
  ncalls 1 close tr = 2 /\
  ncalls 1 begin tr = 2 /\
  sleeps tr = repeat retry_delay 2 /\
  (retry_delay * 1000 == 100)%Q.
Proof.
  apply (@wrapped_retries_then_returns string always_retryable 2 true
           (conflicts_then_ok 2) quiet_session mapper_self 2 "ok"%string).
  - reflexivity.
  - intros i Hi. destruct i as [|[|i]]; [reflexivity | reflexivity | lia].
  - reflexivity.
  - lia.
  - intros i Hi; reflexivity.
  - intros i Hi; reflexivity.
Defined.

(** [wrapped_gives_up]: a function that always conflicts, with a budget
    of one. *)
Lemma wrapped_gives_up_witness :
  exists e,
    func_run always_conflicts 1 = inl e /\
    let tr := retry_rounds 1 false 0 1 ++ [FuncCall; SessionCall 1 close] in
    let out : Outcome (option string) :=
      Raise (UnresolvedDatabaseConflict (mkMessage "f" 1) e) in
    wrapped always_retryable 1 false always_conflicts mapper_self = Some (tr, out) /\
    invocations tr = 1 + 1 /\
    reported_attempts out = Some 1.
Proof.
  apply (@wrapped_gives_up string always_retryable 1 false always_conflicts
           quiet_session mapper_self).
  - reflexivity.
  - intros i; reflexivity.
  - intros i Hi; reflexivity.
  - intros i Hi; reflexivity.
Defined.

(** C2 as stated fails: with a budget of 0 the function is invoked once,
    and the error's message gives 0, the budget, as its attempts; the
    attempt count, 1, is not in the error. *)
Lemma unresolved_reports_budget_not_attempts :
  exists tr out,
    wrapped always_retryable 0 false always_conflicts mapper_self = Some (tr, out) /\
    invocations tr = 1 /\
    reported_attempts out = Some 0 /\
    reported_attempts out <> Some (invocations tr).
Proof.
  eexists. eexists. split; [reflexivity|].
  split; [reflexivity|]. split; [reflexivity | discriminate].
Qed.

(** [wrapped_reraises]: a [ValueError] on the first invocation. *)
Lemma wrapped_reraises_witness :
  let tr := retry_rounds 1 false 0 0
              ++ [FuncCall; SessionCall 1 rollback; SessionCall 1 begin] in
  wrapped always_retryable 2 false raises_value_error mapper_self =
    Some (tr, Raise (Original (mkExc Exception 22))) /\
  sleeps tr = repeat retry_delay 0 /\
  invocations tr = 0 + 1.
Proof.
  apply (@wrapped_reraises string always_retryable 2 false raises_value_error
           quiet_session mapper_self 0 (mkExc Exception 22)).
  - reflexivity.
  - intros i Hi. lia.
  - reflexivity.
  - reflexivity.
  - lia.
  - intros i Hi; reflexivity.
  - intros i Hi; reflexivity.
  - intros i Hi; reflexivity.
Defined.

(** C3 as stated fails: a [KeyboardInterrupt] is an error that is not a
    retryable conflict, and the wrapper lets it through with neither
    [rollback] nor [begin]. *)
Lemma wrapped_interrupt_no_rollback :
  exists tr e,
    func_run interrupted 0 = inl e /\
    retryable_conflict always_retryable e = false /\
    wrapped always_retryable 2 false interrupted mapper_self =
      Some (tr, Raise (Original e)) /\
    session_calls tr = [] /\
    session_calls tr <> [rollback; begin].
Proof.
  eexists. eexists. split; [reflexivity|].
  split; [reflexivity|]. split; [reflexivity|].
  split; [reflexivity | discriminate].
Qed.

(** [wrapped_resolves_session] on a mapper, on a manager and on an
    object that is neither. *)
Lemma wrapped_resolves_session_witness :
  (wrapped always_retryable 2 false (conflicts_then_ok 1) mapper_self =
     while_loop always_retryable 2 false (conflicts_then_ok 1) 3 quiet_session 0 [] /\
   exists tr out,
     wrapped always_retryable 2 false (conflicts_then_ok 1) mapper_self = Some (tr, out) /\
     on_session 1 tr) /\
  (wrapped always_retryable 2 false (conflicts_then_ok 1) manager_self =
     while_loop always_retryable 2 false (conflicts_then_ok 1) 3 quiet_session 0 [] /\
   exists tr out,
     wrapped always_retryable 2 false (conflicts_then_ok 1) manager_self = Some (tr, out) /\
     on_session 1 tr) /\
  wrapped always_retryable 2 false (conflicts_then_ok 1) bare_self =
    Some ([], Raise (RuntimeError "Invalid decorator usage")).
Proof.
  split; [|split].
  - apply (proj1 (wrapped_resolves_session always_retryable 2 false
                    (conflicts_then_ok 1) mapper_self) quiet_session).
    reflexivity.
  - apply (proj1 (proj2 (wrapped_resolves_session always_retryable 2 false
                           (conflicts_then_ok 1) manager_self))
             (mkMapper quiet_session));
      reflexivity.
  - apply (proj2 (proj2 (wrapped_resolves_session always_retryable 2 false
                           (conflicts_then_ok 1) bare_self)));
      reflexivity.
Defined.

(** [wrapped_begin_iff]: one conflict, then ["ok"], with a budget of
    one. *)
Lemma wrapped_begin_iff_witness :
  exists tr out,
    wrapped always_retryable 1 false (conflicts_then_ok 1) mapper_self = Some (tr, out) /\
    (existsb is_begin tr = true <->
       1 < invocations tr \/
       exists e, out = Raise (Original e) /\
                 caught_not_retryable always_retryable e = true) /\
    (forall v, out = Return v ->
       session_calls tr = List.concat (repeat [close; begin] (invocations tr - 1)) /\
       exists tr', tr = tr' ++ [FuncCall]) /\
    (forall m c, out = Raise (UnresolvedDatabaseConflict m c) ->
       exists tr', tr = tr' ++ [SessionCall 1 close]).
Proof.
  apply (@wrapped_begin_iff string always_retryable 1 false (conflicts_then_ok 1)
           quiet_session mapper_self).
  - reflexivity.
  - intros i Hi; reflexivity.
  - intros i Hi; reflexivity.
  - intros i Hi; reflexivity.
Defined.

(** C9 as stated fails: the wrapper returns ["ok"] after one replay,
    having called [close] and [begin] itself. *)
Lemma wrapped_success_after_replay_has_calls :
  exists tr,
    wrapped always_retryable 1 false (conflicts_then_ok 1) mapper_self =
      Some (tr, Return (Some "ok"%string)) /\
    session_calls tr = [close; begin] /\
    session_calls tr <> [].
Proof.
  eexists. split; [reflexivity|].
  split; [reflexivity | discriminate].
Qed.

(** [wrapped_passes_base_exception]: a [KeyboardInterrupt] on the first
    invocation, on a session whose every call would raise. *)
Lemma wrapped_passes_base_exception_witness :
  wrapped always_retryable 2 true interrupted (mkReceiver (Some broken_session) None) =
    Some ([FuncCall], Raise (Original (mkExc BaseException 130))).
Proof.
  apply (@wrapped_passes_base_exception string always_retryable 2 true interrupted
           broken_session (mkReceiver (Some broken_session) None) 0
           (mkExc BaseException 130)).
  - reflexivity.
  - intros i Hi. lia.
  - reflexivity.
  - reflexivity.
  - lia.
  - intros i Hi. lia.
  - intros i Hi. lia.
Defined.

(** * Runs on arbitrary sessions *)

(** ** The turn that ends the loop *)

Section AnyRun.

Variable V : Type.
Variable is_retryable_exception : PyExc -> bool.
Variable retries : nat.
Variable logger : bool.
Variable func : Func V.
Variable s : Session.

Local Abbreviation body := (loop_body is_retryable_exception retries logger func s).
Local Abbreviation loop := (fun fuel => while_loop is_retryable_exception retries logger func fuel s).
Local Abbreviation run := (wrapped is_retryable_exception retries logger func).
Local Abbreviation replays := (replay_ok is_retryable_exception retries func s).
Local Abbreviation ends := (end_turn is_retryable_exception retries logger func s).

Lemma loop_body_close_raises a tr e e' :
  func_run func (invocations tr) = inl e ->
  retryable_conflict is_retryable_exception e = true ->
  respond s close (ncalls (sid s) close tr) = Some e' ->
  body a tr = (tr ++ [FuncCall; SessionCall (sid s) close], Raise (Original e')).
Proof.
  intros Hf Hr Hcl.
  unfold loop_body, bind, invoke. rewrite Hf.
  unfold retryable_conflict in Hr.
  destruct (exc_class e); try discriminate. rewrite Hr.
  unfold call. count_calls. rewrite Hcl.
  rewrite <- app_assoc. reflexivity.
Qed.

Lemma loop_body_begin_raises a tr e e' :
  func_run func (invocations tr) = inl e ->
  retryable_conflict is_retryable_exception e = true ->
  a + 1 <= retries ->
  respond s close (ncalls (sid s) close tr) = None ->
  respond s begin (ncalls (sid s) begin tr) = Some e' ->
  body a tr = (tr ++ retry_round (sid s) logger (a + 1), Raise (Original e')).
Proof.
  intros Hf Hr Ha Hcl Hb.
  unfold loop_body, bind, invoke. rewrite Hf.
  unfold retryable_conflict in Hr.
  destruct (exc_class e); try discriminate. rewrite Hr.
  unfold call, emit, ret. count_calls. rewrite Hcl. cbn beta iota zeta.
  destruct (Nat.ltb_spec retries (a + 1)) as [Hlt|_]; [lia|].
  unfold retry_round.
  destruct logger; cbn beta iota; count_calls; rewrite Hb;
    repeat rewrite <- app_assoc; reflexivity.
Qed.

Lemma loop_body_rollback_raises a tr e e' :
  func_run func (invocations tr) = inl e ->
  caught_not_retryable is_retryable_exception e = true ->
  respond s rollback (ncalls (sid s) rollback tr) = Some e' ->
  body a tr = (tr ++ [FuncCall; SessionCall (sid s) rollback], Raise (Original e')).
Proof.
  intros Hf Hc Hr.
  unfold loop_body, bind, invoke. rewrite Hf.
  unfold caught_not_retryable in Hc.
  destruct (exc_class e); try discriminate;
    [destruct (is_retryable_exception e); [discriminate|] |];
    unfold call; count_calls; rewrite Hr;
    rewrite <- app_assoc; reflexivity.
Qed.

Lemma loop_body_rebegin_raises a tr e e' :
  func_run func (invocations tr) = inl e ->
  caught_not_retryable is_retryable_exception e = true ->
  respond s rollback (ncalls (sid s) rollback tr) = None ->
  respond s begin (ncalls (sid s) begin tr) = Some e' ->
  body a tr =
    (tr ++ [FuncCall; SessionCall (sid s) rollback; SessionCall (sid s) begin],
     Raise (Original e')).
Proof.
  intros Hf Hc Hr Hb.
  unfold loop_body, bind, invoke. rewrite Hf.
  unfold caught_not_retryable in Hc.
  destruct (exc_class e); try discriminate;
    [destruct (is_retryable_exception e); [discriminate|] |];
    unfold call; count_calls; rewrite Hr; cbn beta iota;
    count_calls; rewrite Hb;
    repeat rewrite <- app_assoc; reflexivity.
Qed.

(** Every invocation is either replayed or ends the loop. *)
Lemma turn_cases k : replays k \/ exists tail out, ends k tail out.
Proof.
  unfold replay_ok.
  destruct (func_run func k) as [e|v] eqn:Hf;
    [|right; eexists; eexists; eapply end_returns; eassumption].
  destruct (retryable_conflict is_retryable_exception e) eqn:Hrc.
  - destruct (respond s close k) as [e'|] eqn:Hcl;
      [right; eexists; eexists; eapply end_close_raises; eassumption|].
    destruct (Nat.le_gt_cases (k + 1) retries) as [Hin|Hout];
      [|right; eexists; eexists; eapply end_gives_up; eassumption].
    destruct (respond s begin k) as [e'|] eqn:Hb;
      [right; eexists; eexists; eapply end_begin_raises; eassumption|].
    left. cbn [raises_conflict]. auto.
  - right.
    destruct (caught_not_retryable is_retryable_exception e) eqn:Hcn.
    + destruct (respond s rollback 0) as [e'|] eqn:Hr;
        [eexists; eexists; eapply end_rollback_raises; eassumption|].
      destruct (respond s begin k) as [e'|] eqn:Hb;
        eexists; eexists;
        [eapply end_rebegin_raises | eapply end_reraises]; eassumption.
    + eexists; eexists. eapply end_passes; [eassumption|].
      unfold retryable_conflict in Hrc. unfold caught_not_retryable in Hcn.
      destruct (exc_class e); try reflexivity; try discriminate.
      destruct (is_retryable_exception e); discriminate.
Qed.

Lemma replay_run k tr fuel :
  replays k -> at_head (sid s) k tr ->
  loop (S fuel) k tr = loop fuel (k + 1) (tr ++ retry_round (sid s) logger (k + 1)).
Proof.
  intros (Hk & Hf & Hcl & Hb) (Hinv & Hnc & Hnb & _).
  cbn [while_loop].
  destruct (Nat.leb_spec k retries) as [_|Hgt]; [|lia].
  rewrite (@loop_body_replays V is_retryable_exception retries logger func s k tr);
    [reflexivity | rewrite Hinv; exact Hf | exact Hk
    | rewrite Hnc; exact Hcl | rewrite Hnb; exact Hb].
Qed.

Lemma end_turn_run k tail out tr fuel :
  ends k tail out -> at_head (sid s) k tr -> k <= retries ->
  loop (S fuel) k tr = Some (tr ++ tail, out).
Proof.
  intros Hend (Hinv & Hnc & Hnb & Hnr) Hk.
  cbn [while_loop].
  destruct (Nat.leb_spec k retries) as [_|Hgt]; [|lia].
  rewrite <- Hinv in Hend.
  destruct Hend as [v Hf | e Hf Hc | e Hf Hcn Hr Hb | e e' Hf Hcn Hr
                   | e e' Hf Hcn Hr Hb | e Hf Hrc Hcl Hlt | e e' Hf Hrc Hcl
                   | e e' Hf Hrc Hcl Hle Hb];
    rewrite ?Hinv in *.
  - rewrite (@loop_body_returns V is_retryable_exception retries logger func s k tr v);
      [reflexivity | rewrite Hinv; exact Hf].
  - rewrite (@loop_body_passes V is_retryable_exception retries logger func s k tr e);
      [reflexivity | rewrite Hinv; exact Hf | exact Hc].
  - rewrite (@loop_body_reraises V is_retryable_exception retries logger func s k tr e);
      [reflexivity | rewrite Hinv; exact Hf | exact Hcn
      | rewrite Hnr; exact Hr | rewrite Hnb; exact Hb].
  - rewrite (@loop_body_rollback_raises k tr e e');
      [reflexivity | rewrite Hinv; exact Hf | exact Hcn | rewrite Hnr; exact Hr].
  - rewrite (@loop_body_rebegin_raises k tr e e');
      [reflexivity | rewrite Hinv; exact Hf | exact Hcn
      | rewrite Hnr; exact Hr | rewrite Hnb; exact Hb].
  - rewrite (@loop_body_gives_up V is_retryable_exception retries logger func s k tr e);
      [reflexivity | rewrite Hinv; exact Hf | exact Hrc | exact Hlt
      | rewrite Hnc; exact Hcl].
  - rewrite (@loop_body_close_raises k tr e e');
      [reflexivity | rewrite Hinv; exact Hf | exact Hrc | rewrite Hnc; exact Hcl].
  - rewrite (@loop_body_begin_raises k tr e e');
      [reflexivity | rewrite Hinv; exact Hf | exact Hrc | exact Hle
      | rewrite Hnc; exact Hcl | rewrite Hnb; exact Hb].
Qed.

(** Replays followed by an ending turn give the run. *)
Lemma run_forward j :
  forall a tr fuel tail out,
    at_head (sid s) a tr ->
    (forall i, i < j -> replays (a + i)) ->
    a + j <= retries ->
    ends (a + j) tail out ->
    loop (j + S fuel) a tr =
      Some (tr ++ retry_rounds (sid s) logger a j ++ tail, out).
Proof.
  induction j as [|j IH]; intros a tr fuel tail out Hhead Hrep Hj Hend.
  - rewrite Nat.add_0_r in Hend. cbn [Nat.add retry_rounds app].
    apply end_turn_run; [assumption | assumption | lia].
  - cbn [Nat.add retry_rounds].
    rewrite replay_run; [|specialize (Hrep 0); rewrite Nat.add_0_r in Hrep; apply Hrep; lia
                         |assumption].
    rewrite (IH (a + 1) _ fuel tail out).
    + repeat rewrite <- app_assoc. reflexivity.
    + apply (@at_head_round logger s); assumption.
    + intros i Hi. replace (a + 1 + i) with (a + S i) by lia. apply Hrep. lia.
    + lia.
    + replace (a + 1 + j) with (a + S j) by lia. assumption.
Qed.

(** Every run from the loop's head is some replays followed by an ending
    turn. *)
Lemma while_loop_any fuel :
  forall a tr,
    at_head (sid s) a tr ->
    a <= retries -> retries < a + fuel ->
    exists j tail out,
      (forall i, i < j -> replays (a + i)) /\
      a + j <= retries /\
      ends (a + j) tail out /\
      loop fuel a tr =
        Some (tr ++ retry_rounds (sid s) logger a j ++ tail, out).
Proof.
  induction fuel as [|fuel IH]; intros a tr Hhead Ha Hfuel; [lia|].
  destruct (turn_cases a) as [Hrep | (tail & out & Hend)].
  - pose proof Hrep as (Hk & _).
    rewrite replay_run by assumption.
    destruct (IH (a + 1) (tr ++ retry_round (sid s) logger (a + 1)))
      as (j & tail & out & Hreps & Hj & Hend & Hrun); try lia.
    { apply (@at_head_round logger s); assumption. }
    exists (S j), tail, out.
    replace (a + S j) with (a + 1 + j) by lia.
    split; [|split; [|split]]; try assumption.
    + intros i Hi. destruct i as [|i].
      * rewrite Nat.add_0_r. exact Hrep.
      * replace (a + S i) with (a + 1 + i) by lia. apply Hreps. lia.
    + rewrite Hrun. cbn [retry_rounds]. repeat rewrite <- app_assoc. reflexivity.
  - exists 0, tail, out. rewrite Nat.add_0_r.
    split; [|split; [|split]]; try assumption; try lia.
    cbn [retry_rounds app]. apply end_turn_run; assumption.
Qed.

(** The two directions for the wrapper itself. *)
Lemma wrapped_shape self :
  resolve_session self = inr s ->
  exists j tail out,
    (forall i, i < j -> replays i) /\
    j <= retries /\
    ends j tail out /\
    run self = Some (retry_rounds (sid s) logger 0 j ++ tail, out).
Proof.
  intros Hres. unfold wrapped. rewrite Hres.
  destruct (@while_loop_any (S retries) 0 [])
    as (j & tail & out & Hreps & Hj & Hend & Hrun); try lia.
  { repeat split. }
  exists j, tail, out. auto.
Qed.

Lemma wrapped_forward self j tail out :
  resolve_session self = inr s ->
  (forall i, i < j -> replays i) ->
  j <= retries ->
  ends j tail out ->
  run self = Some (retry_rounds (sid s) logger 0 j ++ tail, out).
Proof.
  intros Hres Hreps Hj Hend. unfold wrapped. rewrite Hres.
  replace (S retries) with (j + S (retries - j)) by lia.
  apply (@run_forward j 0 [] (retries - j) tail out); try assumption.
  repeat split.
Qed.

End AnyRun.

(** ** More counting in traces *)

Lemma logs_app tr1 tr2 : logs (tr1 ++ tr2) = logs tr1 ++ logs tr2.
Proof.
  induction tr1 as [|ev tr1 IH]; simpl; [reflexivity|].
  destruct ev; simpl; rewrite IH; reflexivity.
Qed.

Lemma logs_retry_rounds s logger a k :
  logs (retry_rounds s logger a k) = if logger then seq (a + 1) k else [].
Proof.
  revert a. induction k as [|k IH]; intros a; cbn [retry_rounds].
  - destruct logger; reflexivity.
  - rewrite logs_app, IH. destruct logger; [|reflexivity].
    cbn. replace (a + 1 + 1) with (S (a + 1)) by lia. reflexivity.
Qed.

Lemma strip_logs_app tr1 tr2 :
  strip_logs (tr1 ++ tr2) = strip_logs tr1 ++ strip_logs tr2.
Proof. apply filter_app. Qed.

Lemma strip_logs_retry_round s logger a :
  strip_logs (retry_round s logger a) = retry_round s false a.
Proof. destruct logger; reflexivity. Qed.

Lemma strip_logs_retry_rounds s logger a k :
  strip_logs (retry_rounds s logger a k) = retry_rounds s false a k.
Proof.
  revert a. induction k as [|k IH]; intros a; cbn [retry_rounds]; [reflexivity|].
  rewrite strip_logs_app, strip_logs_retry_round, IH. reflexivity.
Qed.

Lemma count_op_app op l1 l2 :
  count_op op (l1 ++ l2) = count_op op l1 + count_op op l2.
Proof. unfold count_op. rewrite filter_app, length_app. reflexivity. Qed.

Lemma count_op_retry_rounds s logger a k op :
  count_op op (session_calls (retry_rounds s logger a k)) =
    match op with close | begin => k | _ => 0 end.
Proof.
  revert a. induction k as [|k IH]; intros a; cbn [retry_rounds].
  - destruct op; reflexivity.
  - rewrite session_calls_app, count_op_app, IH.
    destruct logger, op; reflexivity.
Qed.

Lemma length_sleeps_retry_rounds s logger a k :
  List.length (sleeps (retry_rounds s logger a k)) = k.
Proof. rewrite sleeps_retry_rounds. apply repeat_length. Qed.

Lemma Forall_sleeps_retry_rounds s logger a k :
  Forall (fun d => d = retry_delay) (sleeps (retry_rounds s logger a k)).
Proof.
  rewrite sleeps_retry_rounds. apply Forall_forall.
  intros d Hin. apply repeat_spec in Hin. exact Hin.
Qed.

(** ** How the ending turn depends on the decorator's arguments *)

Lemma end_turn_strip_logs V (is_retryable_exception : PyExc -> bool) retries logger
  (func : Func V) s k tail out :
  end_turn is_retryable_exception retries logger func s k tail out ->
  end_turn is_retryable_exception retries false func s k (strip_logs tail) out.
Proof.
  intros Hend. destruct Hend; try (econstructor; eassumption).
  rewrite strip_logs_retry_round. eapply end_begin_raises; eassumption.
Qed.

Lemma retryable_conflict_ext (f g : PyExc -> bool) e :
  (forall e, exc_class e = OperationalError -> f e = g e) ->
  retryable_conflict f e = retryable_conflict g e.
Proof.
  intros Hfg. unfold retryable_conflict.
  destruct (exc_class e) eqn:Hc; try reflexivity. apply Hfg, Hc.
Qed.

Lemma caught_not_retryable_ext (f g : PyExc -> bool) e :
  (forall e, exc_class e = OperationalError -> f e = g e) ->
  caught_not_retryable f e = caught_not_retryable g e.
Proof.
  intros Hfg. unfold caught_not_retryable.
  destruct (exc_class e) eqn:Hc; try reflexivity. rewrite (Hfg e Hc). reflexivity.
Qed.

Lemma replay_ok_ext V (f g : PyExc -> bool) retries (func : Func V) s k :
  (forall e, exc_class e = OperationalError -> f e = g e) ->
  replay_ok f retries func s k -> replay_ok g retries func s k.
Proof.
  intros Hfg (Hk & Hc & Hcl & Hb). repeat split; try assumption.
  destruct (func_run func k) as [e|v]; [|discriminate].
  cbn [raises_conflict] in *.
  rewrite <- (@retryable_conflict_ext f g e Hfg). exact Hc.
Qed.

Lemma end_turn_ext V (f g : PyExc -> bool) retries logger (func : Func V) s k tail out :
  (forall e, exc_class e = OperationalError -> f e = g e) ->
  end_turn f retries logger func s k tail out ->
  end_turn g retries logger func s k tail out.
Proof.
  intros Hfg Hend.
  destruct Hend;
    repeat match goal with
           | H : retryable_conflict f _ = _ |- _ =>
               rewrite (@retryable_conflict_ext f g _ Hfg) in H
           | H : caught_not_retryable f _ = _ |- _ =>
               rewrite (@caught_not_retryable_ext f g _ Hfg) in H
           end;
    econstructor; eassumption.
Qed.

Lemma replay_ok_budget V (f : PyExc -> bool) r r' (func : Func V) s k :
  r <= r' -> replay_ok f r func s k -> replay_ok f r' func s k.
Proof.
  intros Hr (Hk & Hrest). split; [lia | exact Hrest].
Qed.

Lemma end_turn_budget V (f : PyExc -> bool) r r' logger (func : Func V) s k tail out :
  r <= r' ->
  (forall m c, out <> Raise (UnresolvedDatabaseConflict m c)) ->
  end_turn f r logger func s k tail out ->
  end_turn f r' logger func s k tail out.
Proof.
  intros Hr Hout Hend.
  destruct Hend; try (econstructor; eassumption).
  - exfalso. eapply Hout. reflexivity.
  - eapply end_begin_raises; try eassumption. lia.
Qed.

(** ** What every run of the wrapper keeps *)

Section EveryRun.

Variable V : Type.
Variable is_retryable_exception : PyExc -> bool.
Variable retries : nat.
Variable logger : bool.
Variable func : Func V.

Local Abbreviation run := (wrapped is_retryable_exception retries logger func).

(** X1.  Whatever the function and the session do, [wrapped] ends, having
    invoked the function at most [retries + 1] times and slept at most
    [retries] times, each time for 0.1 s. *)
Theorem wrapped_bounded self :
  exists tr out,
    run self = Some (tr, out) /\
    invocations tr <= retries + 1 /\
    List.length (sleeps tr) <= retries /\
    Forall (fun d => d = retry_delay) (sleeps tr).
Proof.
  destruct (resolve_session self) as [r|s] eqn:Hres.
  - exists [], (Raise r). unfold wrapped. rewrite Hres.
    split; [reflexivity|]. split; [cbn; lia|].
    split; [cbn; lia | constructor].
  - destruct (@wrapped_shape V is_retryable_exception retries logger func s self Hres)
      as (j & tail & out & _ & Hj & Hend & Hrun).
    exists (retry_rounds (sid s) logger 0 j ++ tail), out.
    split; [exact Hrun|].
    rewrite invocations_app, invocations_retry_rounds, sleeps_app, length_app,
      length_sleeps_retry_rounds.
    split; [|split].
    + destruct Hend; try rewrite invocations_retry_round; cbn; lia.
    + destruct Hend; try (cbn; lia).
      unfold retry_round. destruct logger; cbn; lia.
    + apply Forall_app. split; [apply Forall_sleeps_retry_rounds|].
      destruct Hend; unfold retry_round; destruct logger; cbn; repeat constructor.
Qed.

(** X2.  Whatever the function and the session do, [wrapped] never calls
    [commit]; it calls [rollback] at most once, and only in a run that
    ends by raising. *)
Theorem wrapped_never_commits self :
  exists tr out,
    run self = Some (tr, out) /\
    count_op commit (session_calls tr) = 0 /\
    count_op rollback (session_calls tr) <= 1 /\
    (count_op rollback (session_calls tr) = 1 -> exists r, out = Raise r).
Proof.
  destruct (resolve_session self) as [r|s] eqn:Hres.
  - exists [], (Raise r). unfold wrapped. rewrite Hres.
    split; [reflexivity|]. split; [reflexivity|].
    split; [cbn; lia | eauto].
  - destruct (@wrapped_shape V is_retryable_exception retries logger func s self Hres)
      as (j & tail & out & _ & Hj & Hend & Hrun).
    exists (retry_rounds (sid s) logger 0 j ++ tail), out.
    split; [exact Hrun|].
    rewrite session_calls_app, !count_op_app, !count_op_retry_rounds.
    destruct Hend; unfold retry_round;
      (split; [|split]);
      try (destruct logger; cbn; lia);
      try (intros _; eauto);
      try (destruct logger; cbn; intros Hone; discriminate Hone).
Qed.

(** X3.  When [wrapped] returns, it returns the value of its last
    invocation of the function, every earlier invocation raised a
    retryable conflict, and the returning invocation is its last event:
    the wrapper never returns [None] of its own. *)
Theorem wrapped_returns_last_value self tr r :
  run self = Some (tr, Return r) ->
  exists s k v,
    resolve_session self = inr s /\
    k <= retries /\
    r = Some v /\
    func_run func k = inr v /\
    (forall i, i < k ->
       raises_conflict is_retryable_exception (func_run func i) = true) /\
    tr = retry_rounds (sid s) logger 0 k ++ [FuncCall].
Proof.
  intros Hrun.
  destruct (resolve_session self) as [e|s] eqn:Hres.
  - unfold wrapped in Hrun. rewrite Hres in Hrun. discriminate.
  - destruct (@wrapped_shape V is_retryable_exception retries logger func s self Hres)
      as (j & tail & out & Hreps & Hj & Hend & Hrun').
    rewrite Hrun' in Hrun. inversion Hrun; subst tr out.
    inversion Hend; subst.
    exists s, j, v. repeat split; try assumption; try reflexivity.
    intros i Hi. apply (Hreps i Hi).
Qed.

(** X4.  When [wrapped] raises [UnresolvedDatabaseConflict], the function
    was invoked exactly [retries + 1] times and every invocation raised
    a retryable conflict; the cause is the exception of the last
    invocation, the message names the function and [retries], and the
    last event is the [close] of the last conflict. *)
Theorem wrapped_unresolved_only_when_spent self tr m c :
  run self = Some (tr, Raise (UnresolvedDatabaseConflict m c)) ->
  exists s,
    resolve_session self = inr s /\
    m = mkMessage (func_repr func) retries /\
    func_run func retries = inl c /\
    (forall i, i <= retries ->
       raises_conflict is_retryable_exception (func_run func i) = true) /\
    invocations tr = retries + 1 /\
    tr = retry_rounds (sid s) logger 0 retries
           ++ [FuncCall; SessionCall (sid s) close].
Proof.
  intros Hrun.
  destruct (resolve_session self) as [e|s] eqn:Hres.
  - unfold wrapped, resolve_session in *.
    destruct (_session self); [discriminate|].
    destruct (_mapper self); [discriminate|].
    inversion Hres; subst e. discriminate.
  - destruct (@wrapped_shape V is_retryable_exception retries logger func s self Hres)
      as (j & tail & out & Hreps & Hj & Hend & Hrun').
    rewrite Hrun' in Hrun. inversion Hrun; subst tr out.
    inversion Hend; subst.
    assert (j = retries) by lia. subst j.
    exists s. repeat split; try assumption; try reflexivity.
    + intros i Hi. destruct (Nat.eq_dec i retries) as [->|Hne].
      * match goal with H : func_run func retries = inl _ |- _ => rewrite H end.
        assumption.
      * apply (Hreps i). lia.
    + rewrite invocations_app, invocations_retry_rounds. reflexivity.
Qed.

(** X8.  With a logger, the wrapper writes one debug line per sleep,
    numbered 1, 2, ... in order; without one it writes none. *)
Theorem wrapped_log_numbers self :
  exists tr out,
    run self = Some (tr, out) /\
    logs tr = if logger then seq 1 (List.length (sleeps tr)) else [].
Proof.
  destruct (resolve_session self) as [r|s] eqn:Hres.
  - exists [], (Raise r). unfold wrapped. rewrite Hres.
    split; [reflexivity|]. destruct logger; reflexivity.
  - destruct (@wrapped_shape V is_retryable_exception retries logger func s self Hres)
      as (j & tail & out & _ & Hj & Hend & Hrun).
    exists (retry_rounds (sid s) logger 0 j ++ tail), out.
    split; [exact Hrun|].
    rewrite logs_app, logs_retry_rounds, sleeps_app, length_app,
      length_sleeps_retry_rounds.
    destruct Hend; unfold retry_round; destruct logger; cbn [logs sleeps app List.length];
      rewrite ?app_nil_r, ?Nat.add_0_r; try reflexivity.
    rewrite seq_app. cbn [seq Nat.add]. rewrite Nat.add_1_r. reflexivity.
Qed.

End EveryRun.

(** ** When a session call of the wrapper raises *)

Section HandlerFailures.

Variable V : Type.
Variable is_retryable_exception : PyExc -> bool.
Variable retries : nat.
Variable logger : bool.
Variable func : Func V.
Variable s : Session.

Local Abbreviation run := (wrapped is_retryable_exception retries logger func).

(** The first [k] invocations are replayed when they raise conflicts,
    [k] is within the budget and the [close] and [begin] calls of those
    replays return. *)
Lemma replays_before k :
  k <= retries ->
  (forall i, i < k ->
     raises_conflict is_retryable_exception (func_run func i) = true) ->
  returns_upto s close k -> returns_upto s begin k ->
  forall i, i < k -> replay_ok is_retryable_exception retries func s i.
Proof.
  intros Hk Hconf Hcl Hb i Hi.
  repeat split; [lia | apply Hconf, Hi | apply Hcl, Hi | apply Hb, Hi].
Qed.

(** X5.  After [k <= retries] replays the function raises a retryable
    conflict and the [close] that follows raises [e'].  Then [wrapped]
    raises [e'] itself, right after that [close]: it neither sleeps nor
    calls [begin] nor invokes the function again, and it does not raise
    [UnresolvedDatabaseConflict] even when the budget is spent. *)
Theorem wrapped_close_raises self k e' :
  resolve_session self = inr s ->
  k <= retries ->
  (forall i, i <= k ->
     raises_conflict is_retryable_exception (func_run func i) = true) ->
  returns_upto s close k -> returns_upto s begin k ->
  respond s close k = Some e' ->
  run self =
    Some (retry_rounds (sid s) logger 0 k ++ [FuncCall; SessionCall (sid s) close],
          Raise (Original e')).
Proof.
  intros Hres Hk Hconf Hcl Hb Hraise.
  pose proof (Hconf k (Nat.le_refl k)) as Hlast.
  destruct (func_run func k) as [e|v] eqn:Hf; [|discriminate].
  apply (@wrapped_forward V is_retryable_exception retries logger func s self k);
    try assumption.
  - apply replays_before; try assumption. intros i Hi. apply Hconf. lia.
  - eapply end_close_raises; eassumption.
Qed.

(** X6.  After [k <= retries] replays the function raises [e], caught
    and not a retryable conflict.  When the [rollback] that follows
    raises [e'], [wrapped] raises [e'] in place of [e] and does not call
    [begin]; when [rollback] returns and [begin] raises [e'], [wrapped]
    raises [e'] in place of [e]. *)
Theorem wrapped_reraise_is_replaced self k e e' :
  resolve_session self = inr s ->
  k <= retries ->
  (forall i, i < k ->
     raises_conflict is_retryable_exception (func_run func i) = true) ->
  returns_upto s close k -> returns_upto s begin k ->
  func_run func k = inl e ->
  caught_not_retryable is_retryable_exception e = true ->
  (respond s rollback 0 = Some e' ->
   run self =
     Some (retry_rounds (sid s) logger 0 k
             ++ [FuncCall; SessionCall (sid s) rollback],
           Raise (Original e'))) /\
  (respond s rollback 0 = None -> respond s begin k = Some e' ->
   run self =
     Some (retry_rounds (sid s) logger 0 k
             ++ [FuncCall; SessionCall (sid s) rollback; SessionCall (sid s) begin],
           Raise (Original e'))).
Proof.
  intros Hres Hk Hconf Hcl Hb Hf Hcn.
  split.
  - intros Hr.
    apply (@wrapped_forward V is_retryable_exception retries logger func s self k);
      try assumption.
    + apply replays_before; assumption.
    + eapply end_rollback_raises; eassumption.
  - intros Hr Hbk.
    apply (@wrapped_forward V is_retryable_exception retries logger func s self k);
      try assumption.
    + apply replays_before; assumption.
    + eapply end_rebegin_raises; eassumption.
Qed.

(** X7.  After [k] replays the function raises a retryable conflict with
    budget left ([k + 1 <= retries]); [close] returns, and after the
    sleep [begin] raises [e'].  Then [wrapped] raises [e'] itself and
    does not invoke the function again: it was invoked [k + 1] times. *)
Theorem wrapped_begin_raises self k e' :
  resolve_session self = inr s ->
  k + 1 <= retries ->
  (forall i, i <= k ->
     raises_conflict is_retryable_exception (func_run func i) = true) ->
  returns_upto s close (k + 1) -> returns_upto s begin k ->
  respond s begin k = Some e' ->
  let tr := retry_rounds (sid s) logger 0 k ++ retry_round (sid s) logger (k + 1) in
  run self = Some (tr, Raise (Original e')) /\
  invocations tr = k + 1 /\
  List.length (sleeps tr) = k + 1.
Proof.
  intros Hres Hk Hconf Hcl Hb Hraise tr. subst tr.
  pose proof (Hconf k (Nat.le_refl k)) as Hlast.
  destruct (func_run func k) as [e|v] eqn:Hf; [|discriminate].
  split; [|split].
  - apply (@wrapped_forward V is_retryable_exception retries logger func s self k);
      try assumption; try lia.
    + apply replays_before; try assumption; try lia.
      * intros i Hi. apply Hconf. lia.
      * intros i Hi. apply Hcl. lia.
    + eapply end_begin_raises; try eassumption. apply Hcl. lia.
  - rewrite invocations_app, invocations_retry_rounds, invocations_retry_round.
    reflexivity.
  - rewrite sleeps_app, length_app, length_sleeps_retry_rounds.
    unfold retry_round. destruct logger; reflexivity.
Qed.

End HandlerFailures.

(** ** How the run depends on the decorator's arguments *)

Section DecoratorArguments.

Variable V : Type.
Variable func : Func V.

(** X9.  The logger only adds debug lines: the run with a logger,
    without its debug lines, is the run without a logger, with the same
    outcome. *)
Theorem wrapped_logger_only_logs (is_retryable_exception : PyExc -> bool) retries self :
  option_map (fun p => (strip_logs (fst p), snd p))
    (wrapped is_retryable_exception retries true func self) =
  wrapped is_retryable_exception retries false func self.
Proof.
  destruct (resolve_session self) as [r|s] eqn:Hres.
  - unfold wrapped. rewrite Hres. reflexivity.
  - destruct (@wrapped_shape V is_retryable_exception retries true func s self Hres)
      as (j & tail & out & Hreps & Hj & Hend & Hrun).
    rewrite Hrun. cbn [option_map fst snd].
    rewrite strip_logs_app, strip_logs_retry_rounds.
    symmetry.
    apply (@wrapped_forward V is_retryable_exception retries false func s self j);
      try assumption.
    apply end_turn_strip_logs with (logger := true). exact Hend.
Qed.

(** X10.  The classifier is consulted on [OperationalError]s only: two
    classifiers that agree on them give the same run. *)
Theorem wrapped_classifier_on_operational_errors
  (f g : PyExc -> bool) retries logger self :
  (forall e, exc_class e = OperationalError -> f e = g e) ->
  wrapped f retries logger func self = wrapped g retries logger func self.
Proof.
  intros Hfg.
  destruct (resolve_session self) as [r|s] eqn:Hres.
  - unfold wrapped. rewrite Hres. reflexivity.
  - destruct (@wrapped_shape V f retries logger func s self Hres)
      as (j & tail & out & Hreps & Hj & Hend & Hrun).
    rewrite Hrun. symmetry.
    apply (@wrapped_forward V g retries logger func s self j); try assumption.
    + intros i Hi. apply replay_ok_ext with (f := f); [exact Hfg | apply Hreps, Hi].
    + apply end_turn_ext with (f := f); assumption.
Qed.

(** X11.  A run that ends otherwise than by
    [UnresolvedDatabaseConflict] is the same run under any larger
    budget. *)
Theorem wrapped_larger_budget
  (is_retryable_exception : PyExc -> bool) r r' logger self tr out :
  r <= r' ->
  wrapped is_retryable_exception r logger func self = Some (tr, out) ->
  (forall m c, out <> Raise (UnresolvedDatabaseConflict m c)) ->
  wrapped is_retryable_exception r' logger func self = Some (tr, out).
Proof.
  intros Hr Hrun Hout.
  destruct (resolve_session self) as [e|s] eqn:Hres.
  - unfold wrapped in *. rewrite Hres in *. exact Hrun.
  - destruct (@wrapped_shape V is_retryable_exception r logger func s self Hres)
      as (j & tail & out' & Hreps & Hj & Hend & Hrun').
    rewrite Hrun' in Hrun. inversion Hrun; subst tr out'.
    apply (@wrapped_forward V is_retryable_exception r' logger func s self j);
      try assumption; try lia.
    + intros i Hi. apply replay_ok_budget with (r := r); [exact Hr | apply Hreps, Hi].
    + apply end_turn_budget with (r := r); assumption.
Qed.

End DecoratorArguments.

(** ** session_scope when a session call raises *)

Section SessionScopeFailures.

Variable V : Type.
Variable s : Session.
Variable work : Session -> PyExc + V.




(** X15.  [session_scope] hands back a value only when the work returned
    it and [begin], [commit] and [close] all returned: the calls were
    then [begin], [commit], [close], with no [rollback]. *)
Theorem session_scope_returns_only_committed v :
  snd (run_session_scope s work) = Return v ->
  work s = inr v /\
  respond s begin 0 = None /\
  respond s commit 0 = None /\
  respond s close 0 = None /\
  fst (run_session_scope s work) =
    [SessionCall (sid s) begin; Yield;
     SessionCall (sid s) commit; SessionCall (sid s) close].
Proof.
  destruct (work s) eqn:Hw; run_scope; intros Hout;
    try discriminate Hout.
  inversion Hout; subst. repeat split.
Qed.

End SessionScopeFailures.

(** ** The further theorems at sample inputs *)

(** [wrapped_never_commits] for a function that raises a [ValueError]:
    that run calls [rollback] once and ends by raising. *)
Lemma wrapped_never_commits_witness :
  exists tr out,
    wrapped always_retryable 2 false raises_value_error mapper_self = Some (tr, out) /\
    count_op commit (session_calls tr) = 0 /\
    count_op rollback (session_calls tr) <= 1 /\
    (count_op rollback (session_calls tr) = 1 -> exists r, out = Raise r).
Proof.
  apply (@wrapped_never_commits string always_retryable 2 false raises_value_error
           mapper_self).
Defined.

(** [wrapped_returns_last_value]: two conflicts, then ["ok"]. *)
Lemma wrapped_returns_last_value_witness :
  exists s k v,
    resolve_session mapper_self = inr s /\
    k <= 2 /\
    Some "ok"%string = Some v /\
    func_run (conflicts_then_ok 2) k = inr v /\
    (forall i, i < k ->
       raises_conflict always_retryable (func_run (conflicts_then_ok 2) i) = true) /\
    retry_rounds 1 true 0 2 ++ [FuncCall] = retry_rounds (sid s) true 0 k ++ [FuncCall].
Proof.
  apply (@wrapped_returns_last_value string always_retryable 2 true
           (conflicts_then_ok 2) mapper_self
           (retry_rounds 1 true 0 2 ++ [FuncCall]) (Some "ok"%string)).
  reflexivity.
Defined.

(** [wrapped_unresolved_only_when_spent]: a function that always
    conflicts, with a budget of one. *)
Lemma wrapped_unresolved_only_when_spent_witness :
  exists s,
    resolve_session mapper_self = inr s /\
    mkMessage "f" 1 = mkMessage (func_repr always_conflicts) 1 /\
    func_run always_conflicts 1 = inl (mkExc OperationalError 1) /\
    (forall i, i <= 1 ->
       raises_conflict always_retryable (func_run always_conflicts i) = true) /\
    invocations (retry_rounds 1 false 0 1 ++ [FuncCall; SessionCall 1 close]) = 1 + 1 /\
    retry_rounds 1 false 0 1 ++ [FuncCall; SessionCall 1 close] =
      retry_rounds (sid s) false 0 1 ++ [FuncCall; SessionCall (sid s) close].
Proof.
  apply (@wrapped_unresolved_only_when_spent string always_retryable 1 false
           always_conflicts mapper_self
           (retry_rounds 1 false 0 1 ++ [FuncCall; SessionCall 1 close])
           (mkMessage "f" 1) (mkExc OperationalError 1)).
  reflexivity.
Defined.

(** [wrapped_close_raises] with a budget of 0: the budget is spent, and
    still the exception of [close] is what is raised. *)
Lemma wrapped_close_raises_witness :
  wrapped always_retryable 0 false always_conflicts close_fails_self =
    Some ([FuncCall; SessionCall 5 close],
          Raise (Original (mkExc OperationalError 42))).
Proof.
  apply (@wrapped_close_raises string always_retryable 0 false always_conflicts
           close_fails close_fails_self 0 (mkExc OperationalError 42)).
  - reflexivity.
  - lia.
  - intros i Hi. reflexivity.
  - intros i Hi. lia.
  - intros i Hi. lia.
  - reflexivity.
Defined.

(** [wrapped_reraise_is_replaced]: a [ValueError], then [rollback]
    raises; and a [ValueError], then [begin] raises. *)
Lemma wrapped_reraise_is_replaced_witness :
  wrapped always_retryable 2 false raises_value_error rollback_fails_self =
    Some ([FuncCall; SessionCall 3 rollback],
          Raise (Original (mkExc OperationalError 41))) /\
  wrapped always_retryable 2 false raises_value_error begin_fails_self =
    Some ([FuncCall; SessionCall 6 rollback; SessionCall 6 begin],
          Raise (Original (mkExc OperationalError 43))).
Proof.
  split.
  - destruct (@wrapped_reraise_is_replaced string always_retryable 2 false
                raises_value_error rollback_fails rollback_fails_self 0
                (mkExc Exception 22) (mkExc OperationalError 41))
      as [Hrollback _].
    + reflexivity.
    + lia.
    + intros i Hi. lia.
    + intros i Hi. lia.
    + intros i Hi. lia.
    + reflexivity.
    + reflexivity.
    + apply Hrollback. reflexivity.
  - destruct (@wrapped_reraise_is_replaced string always_retryable 2 false
                raises_value_error begin_fails begin_fails_self 0
                (mkExc Exception 22) (mkExc OperationalError 43))
      as [_ Hbegin].
    + reflexivity.
    + lia.
    + intros i Hi. lia.
    + intros i Hi. lia.
    + intros i Hi. lia.
    + reflexivity.
    + reflexivity.
    + apply Hbegin; reflexivity.
Defined.

(** [wrapped_begin_raises]: one conflict with budget left, then [begin]
    raises. *)
Lemma wrapped_begin_raises_witness :
  let tr := retry_rounds 6 false 0 0 ++ retry_round 6 false (0 + 1) in
  wrapped always_retryable 1 false always_conflicts begin_fails_self =
    Some (tr, Raise (Original (mkExc OperationalError 43))) /\
  invocations tr = 0 + 1 /\
  List.length (sleeps tr) = 0 + 1.
Proof.
  apply (@wrapped_begin_raises string always_retryable 1 false always_conflicts
           begin_fails begin_fails_self 0 (mkExc OperationalError 43)).
  - reflexivity.
  - lia.
  - intros i Hi. reflexivity.
  - intros i Hi. reflexivity.
  - intros i Hi. lia.
  - reflexivity.
Defined.

(** [wrapped_classifier_on_operational_errors]: two classifiers that
    differ on a [ValueError] only. *)
Lemma wrapped_classifier_on_operational_errors_witness :
  wrapped always_retryable 2 false raises_value_error mapper_self =
  wrapped retryable_by_class 2 false raises_value_error mapper_self.
Proof.
  apply (@wrapped_classifier_on_operational_errors string raises_value_error
           always_retryable retryable_by_class 2 false mapper_self).
  intros e He. unfold always_retryable, retryable_by_class. rewrite He. reflexivity.
Defined.

(** [wrapped_larger_budget]: a success after one replay, under a budget
    of one and of three. *)
Lemma wrapped_larger_budget_witness :
  wrapped always_retryable 3 false (conflicts_then_ok 1) mapper_self =
    Some (retry_rounds 1 false 0 1 ++ [FuncCall], Return (Some "ok"%string)).
Proof.
  apply (@wrapped_larger_budget string (conflicts_then_ok 1) always_retryable 1 3
           false mapper_self).
  - lia.
  - reflexivity.
  - intros m c H. discriminate H.
Defined.




(** [session_scope_returns_only_committed]. *)
Lemma session_scope_returns_only_committed_witness :
  (fun _ : Session => inr 5 : PyExc + nat) quiet_session = inr 5 /\
  respond quiet_session begin 0 = None /\
  respond quiet_session commit 0 = None /\
  respond quiet_session close 0 = None /\
  fst (run_session_scope quiet_session (fun _ => inr 5)) =
    [SessionCall 1 begin; Yield; SessionCall 1 commit; SessionCall 1 close].
Proof.
  apply (@session_scope_returns_only_committed nat quiet_session (fun _ => inr 5) 5).
  reflexivity.
Defined.
